(** * logmap: the logistic map and its spectrum, served over HTTP

    A shallow embedding of [logmap.go].  A [float64] is a primitive
    binary64 float, an array [[Iterations]float64] is a list updated by
    index, and the packages the program imports ([strconv], [math/cmplx],
    [fft], [encoding/json], [go-chart], [html/template]) are the
    variables of a section, so every statement holds whatever those
    packages compute. *)

From Stdlib Require Import ZArith Lia Floats Ascii String Reals Lra.
From stdpp Require Import base list strings gmap.

Local Open Scope Z_scope.

(** ** Constants (logmap.go, lines 17-22) *)

Definition Iterations : nat := 100.

(** [Start = 0.1]: the binary64 value nearest to one tenth. *)
Definition Start : float := 0x1.999999999999ap-4%float.

Definition DefaultRate : string := "3.5".

(** ** logisticMap (logmap.go, lines 197-205) *)

(** One pass of the loop body: [x = rate * x * (1 - x)]. *)
Definition logisticStep (rate x : float) : float := (rate * x * (1 - x))%float.

(** The [for] loop, with [fuel] the number of iterations still to run,
    [i] the loop counter, [x] the running value and [series] the result
    array. *)
Fixpoint logisticMap_loop (rate : float) (fuel i : nat) (x : float)
    (series : list float) : list float :=
  match fuel with
  | O => series
  | S fuel' =>
      let x' := logisticStep rate x in
      logisticMap_loop rate fuel' (S i) x' (<[i := x']> series)
  end.

Definition logisticMap (rate : float) : list float :=
  logisticMap_loop rate Iterations 0 Start (replicate Iterations 0%float).

(** The recurrence of the specification: [x 0 = 0.1] and
    [x (n+1) = r * x n * (1 - x n)]. *)
Fixpoint iterate (rate : float) (n : nat) : float :=
  match n with
  | O => Start
  | S k => logisticStep rate (iterate rate k)
  end.

(** ** Values the program passes around *)

(** A [complex128]: a pair of binary64 floats. *)
Record complex128 : Type := Complex { real : float; imag : float }.

(** A Go call returning [(T, error)] whose value is read only when the
    error is nil. *)
Inductive result (A : Type) : Type :=
  | Ok (a : A)
  | Err (e : string).
Arguments Ok {A} a.
Arguments Err {A} e.

(** Indexed store [a[i] = v] with Go's bounds check: [None] is the
    run-time panic "index out of range". *)
Definition store {A : Type} (i : nat) (v : A) (a : list A) : option (list A) :=
  if decide (i < length a)%nat then Some (<[i := v]> a) else None.

(** [for i := range xs { acc = body i xs[i] acc }], from index [i]. *)
Fixpoint range_loop {A St : Type} (body : nat -> A -> St -> option St)
    (i : nat) (xs : list A) (acc : St) : option St :=
  match xs with
  | [] => Some acc
  | v :: xs' =>
      match body i v acc with
      | Some acc' => range_loop body (S i) xs' acc'
      | None => None
      end
  end.

(** ** frequencyTransform (logmap.go, lines 209-226) *)

Section Transform.
(** [math.Sincos], which [cmplx.Rect] calls; the program only ever
    passes the angle 0, where Go documents [Sincos(0) = (0, 1)]. *)
Variable Sincos : float -> float * float.
(** [fft.FFT] of github.com/mjibson/go-dsp. *)
Variable FFT : list complex128 -> list complex128.

(** [cmplx.Rect(r, θ)] of the Go library: [s, c := math.Sincos(θ)]
    and the result is [complex(r*c, r*s)]. *)
Definition Rect (r θ : float) : complex128 :=
  let '(s, c) := Sincos θ in Complex (r * c) (r * s).

Definition frequencyTransform (series : list float) : option (list float) :=
  (* input := make([]complex128, Iterations, Iterations) *)
  let input := replicate Iterations (Complex 0 0) in
  (* for i := range series { input[i] = cmplx.Rect(series[i], 0) } *)
  match range_loop (fun i v input => store i (Rect v 0) input) 0 series input with
  | None => None
  | Some input =>
      let frequencies := FFT input in
      (* for i := range frequencies { output[i] = real(frequencies[i]) } *)
      range_loop (fun i c output => store i (real c) output) 0 frequencies
        (replicate Iterations 0%float)
  end.
End Transform.

(** ** HTTP requests and responses, as the handlers see them *)

Record Request : Type := {
  Method : string;
  Path : string;
  (** [r.URL.Query()]: the parsed query string, a [url.Values]. *)
  Query : gmap string (list string)
}.

(** [url.Values.Get]: the first value of the key, or the empty string
    when the key has no value. *)
Definition Values_Get (v : gmap string (list string)) (key : string) : string :=
  match v !! key with
  | Some (s :: _) => s
  | _ => ""
  end.

(** An [http.ResponseWriter]: the header map, the status line once it is
    sent (with the headers as they were then), and the body written. *)
Record ResponseWriter : Type := {
  Header : gmap string string;
  Sent : option (Z * gmap string string);
  Body : string
}.

Definition StatusOK : Z := 200.
Definition StatusBadRequest : Z := 400.
Definition StatusMethodNotAllowed : Z := 405.
Definition StatusInternalServerError : Z := 500.
Definition MethodGet : string := "GET".

(** A [chart.Chart] as the program fills it: the fields that vary. *)
Record Chart : Type := {
  Width : Z;
  Height : Z;
  XValues : list float;
  YValues : list float
}.

(** The template's [context]. *)
Record context : Type := { Rate : string; TemplateBody : string }.

(** What a handler did besides answering: the calls into the numeric
    pipeline and the values handed to the encoders, in order. *)
Inductive Event : Type :=
  | CallLogisticMap (rate : float)
  | CallFrequencyTransform (series : list float)
  | CallMarshal (time frequency : list float)
  | CallRender (c : Chart).

Record World : Type := {
  writer : ResponseWriter;
  stderr : string;
  trace : list Event
}.

(** A handler is a state transformer that may panic ([None]). *)
Definition Handler (A : Type) : Type := World -> option (A * World).

#[export] Instance Handler_ret : MRet Handler := fun A a w => Some (a, w).
#[export] Instance Handler_bind : MBind Handler := fun A B f m w =>
  match m w with
  | Some (a, w') => f a w'
  | None => None
  end.

Definition panic {A : Type} : Handler A := fun _ => None.

Definition on_writer (f : ResponseWriter -> ResponseWriter) : Handler unit :=
  fun w => Some (tt, {| writer := f (writer w); stderr := stderr w; trace := trace w |}).

Definition emit (e : Event) : Handler unit :=
  fun w => Some (tt, {| writer := writer w; stderr := stderr w; trace := trace w ++ [e] |}).

(** [w.Header().Set(key, value)] *)
Definition Header_Set (key value : string) : Handler unit :=
  on_writer (fun w =>
    {| Header := <[key := value]> (Header w); Sent := Sent w; Body := Body w |}).

(** Sending the status line with the headers as they are, unless it
    is sent already: what the first [WriteHeader], the first [Write] and
    the server at the end of the handler do. *)
Definition send_header (code : Z) (w : ResponseWriter) : ResponseWriter :=
  match Sent w with
  | Some _ => w
  | None => {| Header := Header w; Sent := Some (code, Header w); Body := Body w |}
  end.

(** The line the server writes on the standard error stream, through
    the log package, when a handler calls [WriteHeader] on a response
    whose header is already sent.  The line also carries a time stamp
    and the position of the caller; no statement below depends on its
    text. *)
Definition superfluous_WriteHeader : string :=
  "http: superfluous response.WriteHeader call" +:+ String (Ascii.ascii_of_nat 10) "".

(** [w.WriteHeader(code)]: only the first call counts; a later one is
    logged by the server and changes nothing of the response. *)
Definition WriteHeader (code : Z) : Handler unit := fun w =>
  match Sent (writer w) with
  | None => on_writer (send_header code) w
  | Some _ =>
      Some (tt, {| writer := writer w;
                   stderr := stderr w +:+ superfluous_WriteHeader;
                   trace := trace w |})
  end.

Definition write_body (data : string) (w : ResponseWriter) : ResponseWriter :=
  let w := send_header StatusOK w in
  {| Header := Header w; Sent := Sent w; Body := Body w +:+ data |}.

(** [w.Write(data)]: sends status 200 first when none was sent. *)
Definition Write (data : string) : Handler unit := on_writer (write_body data).

(** [fmt.Fprintf(os.Stderr, "%s\n", err)] *)
Definition Fprintf_stderr (err : string) : Handler unit :=
  fun w => Some (tt, {| writer := writer w;
                        stderr := stderr w +:+ err +:+ String (Ascii.ascii_of_nat 10) "";
                        trace := trace w |}).

(** [float64(i)] for a loop counter [i]. *)
Definition float64_of_nat (i : nat) : float :=
  PrimFloat.of_uint63 (Uint63.of_Z (Z.of_nat i)).

(** [xs := make([]float64, Iterations, Iterations)] followed by
    [for i := 0; i < Iterations; i++ { xs[i] = float64(i) * step }]. *)
Definition axis (step : float) : list float :=
  foldl (fun xs i => <[i := (float64_of_nat i * step)%float]> xs)
        (replicate Iterations 0%float) (seq 0 Iterations).

(** [timeStep := 1.0 / Iterations] and [frequencyStep := 0.5 / Iterations]
    are constant expressions: the exact quotients, rounded once. *)
Definition timeStep : float := 0x1.47ae147ae147bp-7%float.
Definition frequencyStep : float := 0x1.47ae147ae147bp-8%float.

(** ** The handlers (logmap.go, lines 39-194) *)

Section Server.
(** [strconv.ParseFloat(s, 64)] *)
Variable ParseFloat : string -> result float.
Variable Sincos : float -> float * float.
Variable FFT : list complex128 -> list complex128.
(** [json.Marshal] of the [{time, frequency}] struct. *)
Variable Marshal : list float -> list float -> result string.
(** [c.Render(chart.SVG, &buf)]: the bytes appended to [buf]. *)
Variable Render : Chart -> string.
(** [fmt.Sprintf("%.2f", rate)] *)
Variable Sprintf_2f : float -> string.
(** [tmpl.Execute(w, ctx)]: the chunks it writes to [w], in order, and
    its error if any. *)
Variable Execute : context -> list string * option string.

Definition getRate (r : Request) : result float :=
  let rateParam := Values_Get (Query r) "rate" in
  let rateParam := if decide (rateParam = "") then DefaultRate else rateParam in
  ParseFloat rateParam.

Definition call_logisticMap (rate : float) : Handler (list float) :=
  emit (CallLogisticMap rate) ;; mret (logisticMap rate).

Definition call_frequencyTransform (series : list float) : Handler (list float) :=
  emit (CallFrequencyTransform series) ;;
  match frequencyTransform Sincos FFT series with
  | Some output => mret output
  | None => panic
  end.

Definition get (r : Request) : Handler unit :=
  Header_Set "Content-Type" "application/json" ;;
  match getRate r with
  | Err _ => WriteHeader StatusBadRequest
  | Ok rate =>
      timeSeries ← call_logisticMap rate;
      frequencySeries ← call_frequencyTransform timeSeries;
      emit (CallMarshal timeSeries frequencySeries) ;;
      match Marshal timeSeries frequencySeries with
      | Err err =>
          WriteHeader StatusInternalServerError ;;
          Fprintf_stderr err
      | Ok output => Write output
      end
  end.

Definition render_into (c : Chart) (buf : string) : Handler string :=
  emit (CallRender c) ;; mret (buf +:+ Render c).

Definition getChart (r : Request) : Handler unit :=
  Header_Set "Content-Type" "text/html" ;;
  match getRate r with
  | Err _ => WriteHeader StatusBadRequest
  | Ok rate =>
      timeSeries ← call_logisticMap rate;
      let timeYSeries := timeSeries in
      let timeXSeries := axis timeStep in
      let timeChart :=
        {| Width := 400; Height := 300;
           XValues := timeXSeries; YValues := timeYSeries |} in
      frequencySeries ← call_frequencyTransform timeSeries;
      let frequencyYSeries := frequencySeries in
      let frequencyXSeries := axis frequencyStep in
      let frequencyChart :=
        {| Width := 400; Height := 300;
           XValues := frequencyXSeries; YValues := frequencyYSeries |} in
      buf ← render_into timeChart "";
      buf ← render_into frequencyChart buf;
      let '(chunks, err) :=
        Execute {| TemplateBody := buf; Rate := Sprintf_2f rate |} in
      foldr (fun chunk rest => Write chunk ;; rest) (mret tt) chunks ;;
      match err with
      | Some err =>
          WriteHeader StatusInternalServerError ;;
          Fprintf_stderr err
      | None => mret tt
      end
  end.

(** The two handlers registered in [main]. *)
Definition rootHandler (r : Request) : Handler unit :=
  if decide (Method r = MethodGet) then get r
  else Header_Set "Allow" "GET" ;; WriteHeader StatusMethodNotAllowed.

Definition chartHandler (r : Request) : Handler unit :=
  if decide (Method r = MethodGet) then getChart r
  else Header_Set "Allow" "GET" ;; WriteHeader StatusMethodNotAllowed.

(** The default mux with the patterns ["/"] and ["/chart"], on a path
    in canonical form: the second takes the path [/chart], the first
    every other path.  A path with repeated slashes or dot segments is
    answered by the mux itself with a redirect and reaches no handler;
    that is not modelled, and every statement about serving is on the
    two paths of [endpoint]. *)
Definition mux (r : Request) : Handler unit :=
  if decide (Path r = "/chart") then chartHandler r else rootHandler r.

Definition initial_world : World :=
  {| writer := {| Header := ∅; Sent := None; Body := "" |};
     stderr := ""; trace := [] |}.

(** Serving one request: the handler runs on a fresh writer, and the
    server sends status 200 itself if the handler sent none. *)
Definition serve (r : Request) : option World :=
  match mux r initial_world with
  | Some (_, w) =>
      Some {| writer := send_header StatusOK (writer w);
              stderr := stderr w; trace := trace w |}
  | None => None
  end.
End Server.

(** The two paths [main] registers.  The mux also hands every other
    path in canonical form to the first handler and redirects the
    paths that are not; the statements below are about these two. *)
Definition endpoint (r : Request) : Prop := Path r = "/" \/ Path r = "/chart".

(** What the client receives. *)
Definition status (w : World) : Z :=
  match Sent (writer w) with Some (code, _) => code | None => 0 end.

Definition header (w : World) (key : string) : option string :=
  match Sent (writer w) with Some (_, h) => h !! key | None => None end.

Definition body (w : World) : string := Body (writer w).

(** Neither NaN nor an infinity. *)
Definition is_finite (x : float) : bool :=
  match Prim2SF x with
  | S754_zero _ | S754_finite _ _ _ => true
  | _ => false
  end.

(** ** One instance of the imported packages

    The statements below hold for every behaviour of the packages.  To
    run the model on concrete requests the packages are instantiated
    here: [ParseFloat] reads decimal literals and the special names with
    correct rounding (hexadecimal literals and digit separators are left
    out), the other packages are reduced to what the handlers need from
    them. *)

Module Packages.

Definition digit (c : ascii) : option Z :=
  let n := Z.of_N (Ascii.N_of_ascii c) in
  if (48 <=? n) && (n <=? 57) then Some (n - 48) else None.

(** A run of decimal digits: the number read so far, how many digits
    were read, and the rest of the input. *)
Fixpoint digits (cs : list ascii) (acc count : Z) : Z * Z * list ascii :=
  match cs with
  | c :: cs' =>
      match digit c with
      | Some d => digits cs' (10 * acc + d) (count + 1)
      | None => (acc, count, cs)
      end
  | [] => (acc, count, [])
  end.

Definition sign (cs : list ascii) : bool * list ascii :=
  match cs with
  | "-"%char :: cs' => (true, cs')
  | "+"%char :: cs' => (false, cs')
  | _ => (false, cs)
  end.

Definition lower (c : ascii) : ascii :=
  let n := Ascii.N_of_ascii c in
  if ((65 <=? n) && (n <=? 90))%N then Ascii.ascii_of_N (n + 32) else c.

Definition is_word (w : string) (cs : list ascii) : bool :=
  bool_decide (map lower cs = list_ascii_of_string w).

(** The binary64 value nearest to [m * 10 ^ e10], ties to even, for
    [m > 0].  A negative power of ten is divided out with 66 extra
    quotient bits and a sticky bit. *)
Definition decimal (neg : bool) (m e10 : Z) : spec_float :=
  if m =? 0 then S754_zero neg
  else if 0 <=? e10 then
    binary_normalize prec emax (cond_Zopp neg (m * 10 ^ e10)) 0 neg
  else
    let den := 10 ^ (- e10) in
    let sh := Z.max 0 (Z.log2 den - Z.log2 m + 66) in
    let q := (m * 2 ^ sh) / den in
    let sticky := if (m * 2 ^ sh) mod den =? 0 then 0 else 1 in
    binary_normalize prec emax (cond_Zopp neg (2 * q + sticky)) (- sh - 1) neg.

Definition exponent (cs : list ascii) : option Z :=
  match cs with
  | [] => Some 0
  | c :: cs' =>
      if bool_decide (lower c = "e"%char) then
        let '(neg, cs'') := sign cs' in
        match digits cs'' 0 0 with
        | (e, count, []) => if 0 <? count then Some (cond_Zopp neg e) else None
        | _ => None
        end
      else None
  end.

Definition syntax_error : string := "invalid syntax".
Definition range_error : string := "value out of range".

Definition ParseFloat (s : string) : result float :=
  let cs := list_ascii_of_string s in
  if is_word "nan" cs then Ok nan
  else
    let '(neg, cs1) := sign cs in
    if is_word "inf" cs1 || is_word "infinity" cs1 then
      Ok (if neg then neg_infinity else infinity)
    else
      let '(ip, ni, cs2) := digits cs1 0 0 in
      let '(m, nf, cs3) :=
        match cs2 with
        | "."%char :: cs2' => digits cs2' ip 0
        | _ => (ip, 0, cs2)
        end in
      if ni + nf =? 0 then Err syntax_error
      else
        match exponent cs3 with
        | None => Err syntax_error
        | Some e =>
            match decimal neg m (e - nf) with
            | S754_infinity _ => Err range_error
            | f => Ok (SF2Prim f)
            end
        end.

(** [math.Sincos] near zero: the leading terms of the two series,
    exact at the only angle the program uses. *)
Definition Sincos (θ : float) : float * float :=
  ((θ - θ * θ * θ / 6)%float, (1 - θ * θ / 2)%float).

(** A transform that keeps the length of its input. *)
Definition FFT (input : list complex128) : list complex128 := input.

(** [json.Marshal] refuses NaN and the infinities; the encoding itself
    is not modelled. *)
Definition Marshal (time frequency : list float) : result string :=
  if forallb is_finite time && forallb is_finite frequency
  then Ok "{}" else Err "json: unsupported value".

Definition Render (c : Chart) : string := "<svg/>".

Definition Sprintf_2f (rate : float) : string := "".

Definition Execute (ctx : context) : list string * option string :=
  ([TemplateBody ctx], None).

(** The server on these packages. *)
Definition run (r : Request) : option World :=
  serve ParseFloat Sincos FFT Marshal Render Sprintf_2f Execute r.

End Packages.

Definition GET (path : string) (query : list (string * list string)) : Request :=
  {| Method := "GET"; Path := path; Query := list_to_map query |}.

(** ** What the handlers leave behind *)

Definition get_result (Marshal : list float -> list float -> result string)
    (rate : float) (fs : list float) : World :=
  let H : gmap string string := {[ "Content-Type" := "application/json" ]} in
  let ts := logisticMap rate in
  {| writer :=
       match Marshal ts fs with
       | Ok output => {| Header := H; Sent := Some (StatusOK, H); Body := output |}
       | Err _ => {| Header := H; Sent := Some (StatusInternalServerError, H); Body := "" |}
       end;
     stderr :=
       match Marshal ts fs with
       | Ok _ => ""
       | Err err => err +:+ String (Ascii.ascii_of_nat 10) ""
       end;
     trace := [CallLogisticMap rate; CallFrequencyTransform ts; CallMarshal ts fs] |}.

Definition timeChart (rate : float) : Chart :=
  {| Width := 400; Height := 300;
     XValues := axis timeStep; YValues := logisticMap rate |}.

Definition frequencyChart (fs : list float) : Chart :=
  {| Width := 400; Height := 300;
     XValues := axis frequencyStep; YValues := fs |}.

Definition getChart_result (Render : Chart -> string) (Sprintf_2f : float -> string)
    (Execute : context -> list string * option string)
    (rate : float) (fs : list float) : World :=
  let H : gmap string string := {[ "Content-Type" := "text/html" ]} in
  let buf := ("" +:+ Render (timeChart rate)) +:+ Render (frequencyChart fs) in
  let out := Execute {| TemplateBody := buf; Rate := Sprintf_2f rate |} in
  let wr := foldl (fun wr c => write_body c wr)
              {| Header := H; Sent := None; Body := "" |} out.1 in
  {| writer :=
       match out.2 with
       | Some _ => send_header StatusInternalServerError wr
       | None => wr
       end;
     stderr :=
       match out.2 with
       | Some err =>
           match Sent wr with
           | Some _ => superfluous_WriteHeader
           | None => ""
           end +:+ err +:+ String (Ascii.ascii_of_nat 10) ""
       | None => ""
       end;
     trace := [CallLogisticMap rate; CallFrequencyTransform (logisticMap rate);
               CallRender (timeChart rate); CallRender (frequencyChart fs)] |}.

(** The world a handler leaves, once the server has closed the
    response. *)
Definition close (w : World) : World :=
  {| writer := send_header StatusOK (writer w);
     stderr := stderr w; trace := trace w |}.

Definition arrays_full (e : Event) : Prop :=
  match e with
  | CallLogisticMap _ => True
  | CallFrequencyTransform series => length series = 100%nat
  | CallMarshal time frequency =>
      length time = 100%nat /\ length frequency = 100%nat
  | CallRender c => length (XValues c) = 100%nat /\ length (YValues c) = 100%nat
  end.

(** ** Binary64 arithmetic: the notions the proofs use *)

(** A float of the closed unit interval, by Go's comparisons. *)
Definition in_unit_interval (x : float) : Prop :=
  (0 <=? x)%float = true /\ (x <=? 1)%float = true.

(** [k] right shifts of a mantissa, keeping the round and sticky bits. *)
Definition shr_n (k : nat) (m : Z) : shr_record :=
  Nat.iter k shr_1 {| shr_m := m; shr_r := false; shr_s := false |}.

(** The mantissa [m] divided by [2 ^ k] and rounded to nearest, ties to
    even, as [binary_round_aux] computes it. *)
Definition rne_shift (m k : Z) : Z :=
  let mrs := shr_n (Z.to_nat k) m in
  round_nearest_even (shr_m mrs) (loc_of_shr_record mrs).

(** The float of sign [sx] and mantissa [M] at exponent [e], for a
    mantissa of at most 54 bits that is [2 ^ 53] when it has 54. *)
Definition pack (sx : bool) (M e : Z) : spec_float :=
  if M =? 0 then S754_zero sx
  else if M <? 2 ^ 53 then
    if e <=? 971 then S754_finite sx (Z.to_pos M) e else S754_infinity sx
  else
    if e + 1 <=? 971 then S754_finite sx (Z.to_pos (2 ^ 52)) (e + 1)
    else S754_infinity sx.

(** The exponent of the last place of a binary64 number of magnitude [e]. *)
Definition fexp64 (e : Z) : Z := Z.max (e - 53) (-1074).

(** [2 ^ e] for an integer [e] of either sign. *)
Definition pow2 (e : Z) : R := powerRZ 2 e.

(** The real number [m * 2 ^ e]. *)
Definition F2R (m e : Z) : R := (IZR m * pow2 e)%R.

(** [M] on the grid of step [2 ^ e] is [v] rounded to nearest. *)
Record rounded (v : R) (e M : Z) : Prop := {
  rounded_range : 0 <= M <= 2 ^ 53;
  rounded_below : forall B, (v <= F2R B e)%R -> M <= B;
  rounded_above : forall B, (F2R B e <= v)%R -> B <= M;
  rounded_near : (v - pow2 e / 2 <= F2R M e <= v + pow2 e / 2)%R
}.

(** The float [x] has sign [sx] and magnitude [V], or is the infinity an
    overflow produced. *)
Inductive is_value (sx : bool) (V : R) : spec_float -> Prop :=
  | is_value_zero : V = 0%R -> is_value sx V (S754_zero sx)
  | is_value_finite m e :
      F2R (Zpos m) e = V -> e <= 971 -> is_value sx V (S754_finite sx m e)
  | is_value_infinity : (pow2 972 <= V)%R -> is_value sx V (S754_infinity sx).

(** The real number a float stands for; zero for what is not finite. *)
Definition val (x : spec_float) : R :=
  match x with
  | S754_finite s m e => if s then (- F2R (Zpos m) e)%R else F2R (Zpos m) e
  | _ => 0%R
  end.

(** A zero of either sign, or a positive finite number. *)
Definition nonneg (x : spec_float) : Prop :=
  match x with
  | S754_zero _ | S754_finite false _ _ => True
  | _ => False
  end.

(** The float 1. *)
Definition ONE : spec_float := S754_finite false (Z.to_pos (2 ^ 52)) (-52).

(** ** Notions for the answers as a whole *)

(** The string [getRate] hands to the parser. *)
Definition rateParam (r : Request) : string :=
  if decide (Values_Get (Query r) "rate" = "") then DefaultRate
  else Values_Get (Query r) "rate".

(** The bytes of a sequence of writes, in order. *)
Definition written (chunks : list string) : string := foldr String.append "" chunks.

(** The array the transform hands to the library. *)
Definition lift (Sincos : float -> float * float) (series : list float)
    : list complex128 :=
  map (fun v => Rect Sincos v 0) series.

(** ** The loop of logisticMap *)

Lemma logisticMap_loop_length rate fuel i x series :
  length (logisticMap_loop rate fuel i x series) = length series.
Proof.
  revert i x series.
  induction fuel as [|fuel IH]; intros i x series; simpl; [done|].
  by rewrite IH, length_insert.
Qed.

(** Cells below the counter are never written again. *)
Lemma logisticMap_loop_below rate fuel i x series j :
  (j < i)%nat ->
  logisticMap_loop rate fuel i x series !! j = series !! j.
Proof.
  revert i x series.
  induction fuel as [|fuel IH]; intros i x series Hj; simpl; [done|].
  rewrite IH by lia. apply list_lookup_insert_ne. lia.
Qed.

(** The cell [i + k] receives the [(k+1)]-th iterate after [x]. *)
Lemma logisticMap_loop_at rate fuel i x series k :
  (k < fuel)%nat -> (i + k < length series)%nat ->
  logisticMap_loop rate fuel i x series !! (i + k)%nat
  = Some (Nat.iter (S k) (logisticStep rate) x).
Proof.
  revert i x series k.
  induction fuel as [|fuel IH]; intros i x series k Hk Hlen; [lia|].
  cbn [logisticMap_loop].
  destruct k as [|k].
  - rewrite Nat.add_0_r in *.
    rewrite logisticMap_loop_below by lia.
    by apply list_lookup_insert_eq.
  - replace (i + S k)%nat with (S i + k)%nat by lia.
    rewrite IH; [|lia|rewrite length_insert; lia].
    f_equal. symmetry. apply (Nat.iter_succ_r (S k)).
Qed.

Lemma iterate_iter rate n :
  iterate rate n = Nat.iter n (logisticStep rate) Start.
Proof. induction n as [|n IH]; [done|]. simpl. by rewrite IH. Qed.

Lemma logisticMap_length rate : length (logisticMap rate) = Iterations.
Proof.
  unfold logisticMap. by rewrite logisticMap_loop_length, length_replicate.
Qed.

Lemma logisticMap_lookup rate n :
  (n < Iterations)%nat -> logisticMap rate !! n = Some (iterate rate (S n)).
Proof.
  intros Hn. unfold logisticMap.
  rewrite (logisticMap_loop_at rate Iterations 0 Start _ n Hn)
    by (rewrite length_replicate; exact Hn).
  by rewrite iterate_iter.
Qed.

(** The series is the list of the iterates 1 to 100. *)
Lemma logisticMap_iterates rate :
  logisticMap rate = map (fun n => iterate rate (S n)) (seq 0 Iterations).
Proof.
  apply list_eq. intros n.
  destruct (decide (n < Iterations)%nat) as [Hn|Hn].
  - rewrite logisticMap_lookup by done.
    rewrite list_lookup_fmap, lookup_seq_lt by done. done.
  - rewrite !lookup_ge_None_2; [done| |].
    + rewrite length_map, length_seq. lia.
    + rewrite logisticMap_length. lia.
Qed.


(** ** Rate parameter resolution *)

Lemma Values_Get_absent (v : gmap string (list string)) key :
  v !! key = None -> Values_Get v key = "".
Proof. unfold Values_Get. by intros ->. Qed.

Lemma Values_Get_first (v : gmap string (list string)) key s vs :
  v !! key = Some (s :: vs) -> Values_Get v key = s.
Proof. unfold Values_Get. by intros ->. Qed.

Lemma getRate_default ParseFloat r :
  Values_Get (Query r) "rate" = "" ->
  getRate ParseFloat r = ParseFloat DefaultRate.
Proof. unfold getRate. intros ->. by rewrite decide_True. Qed.

Lemma getRate_supplied ParseFloat r :
  Values_Get (Query r) "rate" <> "" ->
  getRate ParseFloat r = ParseFloat (Values_Get (Query r) "rate").
Proof. unfold getRate. intros Hne. by rewrite decide_False. Qed.

(** C6, amended. A supplied rate string that is not empty goes to the
    parser, and rate resolution returns what the parser returns, value
    or error: the string is accepted exactly when the parser reports no
    error, with the value the parser gives, finite or not, and rejected
    exactly when the parser reports an error.  A supplied empty string
    is not parsed: the default is. *)
Theorem supplied_rate_is_parsed (ParseFloat : string -> result float)
    (r : Request) (s : string) (vs : list string) :
  Query r !! "rate" = Some (s :: vs) ->
  (s <> "" -> getRate ParseFloat r = ParseFloat s)
  /\ (s = "" -> getRate ParseFloat r = ParseFloat DefaultRate).
Proof.
  intros Hq. apply Values_Get_first in Hq. split; intros Hs.
  - rewrite getRate_supplied; rewrite Hq; done.
  - rewrite getRate_default; [done|]. by rewrite Hq.
Qed.

Lemma supplied_rate_is_parsed_witness :
  Query (GET "/" [("rate", ["-1e3"])]) !! "rate" = Some ["-1e3"]
  /\ getRate Packages.ParseFloat (GET "/" [("rate", ["-1e3"])])
     = Packages.ParseFloat "-1e3".
Proof.
  split; [reflexivity|].
  apply (supplied_rate_is_parsed Packages.ParseFloat
           (GET "/" [("rate", ["-1e3"])]) "-1e3" []); [reflexivity|done].
Defined.

(** C6, counterexample. The empty string is no floating-point literal,
    and rate resolution accepts it. *)
Lemma empty_rate_is_accepted :
  Query (GET "/" [("rate", [""])]) !! "rate" = Some [""]
  /\ Packages.ParseFloat "" = Err "invalid syntax"
  /\ getRate Packages.ParseFloat (GET "/" [("rate", [""])]) = Ok 3.5%float.
Proof. by vm_compute. Qed.

(** Nor is the accepted value always finite: the parser reads the
    special names. *)
Lemma nan_rate_is_accepted :
  getRate Packages.ParseFloat (GET "/" [("rate", ["NaN"])]) = Ok nan
  /\ getRate Packages.ParseFloat (GET "/" [("rate", ["-inf"])]) = Ok neg_infinity.
Proof. by vm_compute. Qed.

(** ** Running the handlers *)

#[local] Arguments logisticMap : simpl never.
#[local] Arguments frequencyTransform : simpl never.
#[local] Arguments axis : simpl never.

Lemma bind_unfold {A B} (m : Handler A) (f : A -> Handler B) w :
  (m ≫= f) w = match m w with Some (a, w') => f a w' | None => None end.
Proof. reflexivity. Qed.

(** A rejected rate: both handlers answer 400 and do nothing else. *)
Lemma get_bad_rate ParseFloat Sincos FFT Marshal r e :
  getRate ParseFloat r = Err e ->
  get ParseFloat Sincos FFT Marshal r initial_world
  = Some (tt, {| writer := {| Header := {[ "Content-Type" := "application/json" ]};
                              Sent := Some (StatusBadRequest,
                                            {[ "Content-Type" := "application/json" ]});
                              Body := "" |};
                 stderr := ""; trace := [] |}).
Proof. intros He. unfold get. rewrite He. reflexivity. Qed.

Lemma getChart_bad_rate ParseFloat Sincos FFT Render Sprintf_2f Execute r e :
  getRate ParseFloat r = Err e ->
  getChart ParseFloat Sincos FFT Render Sprintf_2f Execute r initial_world
  = Some (tt, {| writer := {| Header := {[ "Content-Type" := "text/html" ]};
                              Sent := Some (StatusBadRequest,
                                            {[ "Content-Type" := "text/html" ]});
                              Body := "" |};
                 stderr := ""; trace := [] |}).
Proof. intros He. unfold getChart. rewrite He. reflexivity. Qed.

(** The chunks a template writes, one [Write] each. *)
Lemma write_chunks chunks w :
  foldr (fun chunk rest => Write chunk ;; rest) (mret tt) chunks w
  = Some (tt, {| writer := foldl (fun wr c => write_body c wr) (writer w) chunks;
                 stderr := stderr w; trace := trace w |}).
Proof.
  revert w. induction chunks as [|c chunks IH]; intros w.
  - by destruct w.
  - cbn [foldr foldl]. rewrite bind_unfold. cbn. by rewrite IH.
Qed.

Lemma write_body_sent c wr : exists h, Sent (write_body c wr) = Some h.
Proof.
  unfold write_body, send_header.
  destruct (Sent wr) as [h|] eqn:E; cbn; rewrite ?E; eauto.
Qed.

Lemma write_body_keeps c wr h :
  Sent wr = Some h -> Sent (write_body c wr) = Some h.
Proof. unfold write_body, send_header. intros Hs. cbn. by rewrite !Hs. Qed.

Lemma write_chunks_keep chunks wr h :
  Sent wr = Some h -> Sent (foldl (fun wr c => write_body c wr) wr chunks) = Some h.
Proof.
  revert wr. induction chunks as [|c chunks IH]; intros wr Hs; [done|].
  cbn [foldl]. apply IH. by apply write_body_keeps.
Qed.

(** Once anything is written on a fresh writer the status is 200. *)
Lemma write_chunks_status chunks H :
  Sent (foldl (fun wr c => write_body c wr)
          {| Header := H; Sent := None; Body := "" |} chunks)
  = match chunks with [] => None | _ => Some (StatusOK, H) end.
Proof.
  destruct chunks as [|c chunks]; [done|].
  cbn [foldl]. by apply write_chunks_keep.
Qed.

Lemma axis_length step : length (axis step) = Iterations.
Proof.
  unfold axis.
  assert (Hgen : forall (l : list nat) (xs : list float),
    length (foldl (fun xs i => <[i := (float64_of_nat i * step)%float]> xs) xs l)
    = length xs).
  { induction l as [|i l IH]; intros xs; [done|].
    cbn [foldl]. by rewrite IH, length_insert. }
  by rewrite Hgen, length_replicate.
Qed.

(** *** What each handler does on a rate it accepts *)

Ltac run_handler :=
  unfold mbind, mret, Handler_bind, Handler_ret, emit, Header_Set, WriteHeader,
    Write, Fprintf_stderr, on_writer, panic, initial_world;
  cbn [writer stderr trace Header Sent Body app send_header write_body].

Lemma get_good_rate ParseFloat Sincos FFT Marshal r rate :
  getRate ParseFloat r = Ok rate ->
  get ParseFloat Sincos FFT Marshal r initial_world
  = match frequencyTransform Sincos FFT (logisticMap rate) with
    | Some fs => Some (tt, get_result Marshal rate fs)
    | None => None
    end.
Proof.
  intros Hr. unfold get, get_result. rewrite Hr.
  unfold call_logisticMap, call_frequencyTransform. run_handler.
  destruct (frequencyTransform Sincos FFT (logisticMap rate)) as [fs|]; [|done].
  destruct (Marshal (logisticMap rate) fs); run_handler; reflexivity.
Qed.

Lemma getChart_good_rate ParseFloat Sincos FFT Render Sprintf_2f Execute r rate :
  getRate ParseFloat r = Ok rate ->
  getChart ParseFloat Sincos FFT Render Sprintf_2f Execute r initial_world
  = match frequencyTransform Sincos FFT (logisticMap rate) with
    | Some fs => Some (tt, getChart_result Render Sprintf_2f Execute rate fs)
    | None => None
    end.
Proof.
  intros Hr. unfold getChart, getChart_result. rewrite Hr.
  unfold call_logisticMap, call_frequencyTransform, render_into. run_handler.
  destruct (frequencyTransform Sincos FFT (logisticMap rate)) as [fs|]; [|done].
  fold (timeChart rate) (frequencyChart fs).
  destruct (Execute _) as [chunks err]. rewrite write_chunks.
  cbn [fst snd]. destruct err as [err|]; [|reflexivity].
  run_handler.
  change (<["Content-Type":="text/html"]> (∅ : gmap string string))
    with ({[ "Content-Type" := "text/html" ]} : gmap string string).
  cbn [writer stderr trace]. unfold send_header.
  by destruct (Sent (foldl _ _ chunks)).
Qed.

(** ** The loops of frequencyTransform *)

Lemma store_length {A} i (v : A) a a' : store i v a = Some a' -> length a' = length a.
Proof.
  unfold store. case_decide; [|done]. intros [= <-]. apply length_insert.
Qed.

Lemma range_loop_store_length {A B} (f : A -> B) xs : forall i acc acc',
  range_loop (fun i v acc => store i (f v) acc) i xs acc = Some acc' ->
  length acc' = length acc.
Proof.
  induction xs as [|v xs IH]; intros i acc acc'; cbn [range_loop].
  - by intros [= <-].
  - destruct (store i (f v) acc) as [acc1|] eqn:Hs; [|done].
    intros Hl. rewrite (IH _ _ _ Hl). by eapply store_length.
Qed.

(** A loop that stays inside the array overwrites the cells
    [i .. i + len xs - 1] with the images of [xs]. *)
Lemma range_loop_store_map {A B} (f : A -> B) xs : forall i acc,
  (i + length xs <= length acc)%nat ->
  range_loop (fun i v acc => store i (f v) acc) i xs acc
  = Some (take i acc ++ map f xs ++ drop (i + length xs) acc).
Proof.
  induction xs as [|v xs IH]; intros i acc Hlen; cbn [range_loop length map] in *.
  - rewrite Nat.add_0_r. cbn [app]. by rewrite take_drop.
  - unfold store at 1. rewrite decide_True by lia.
    rewrite IH by (rewrite length_insert; lia).
    f_equal.
    rewrite (take_S_r _ _ (f v)) by (apply list_lookup_insert_eq; lia).
    rewrite take_insert_ge by lia.
    rewrite drop_insert_lt by lia.
    rewrite <- app_assoc. cbn [app].
    by replace (S i + length xs)%nat with (i + S (length xs))%nat by lia.
Qed.

(** A loop that runs past the end of the array panics. *)
Lemma range_loop_store_overflow {A B} (f : A -> B) xs : forall i acc,
  (i <= length acc < i + length xs)%nat ->
  range_loop (fun i v acc => store i (f v) acc) i xs acc = None.
Proof.
  induction xs as [|v xs IH]; intros i acc Hlen; cbn [range_loop length] in *.
  - lia.
  - unfold store at 1. case_decide; [|done].
    apply IH. rewrite length_insert. lia.
Qed.

Lemma frequencyTransform_length Sincos FFT series fs :
  frequencyTransform Sincos FFT series = Some fs -> length fs = Iterations.
Proof.
  unfold frequencyTransform.
  destruct (range_loop _ 0%nat series _) as [input|]; [|done].
  intros Hl. apply range_loop_store_length in Hl.
  by rewrite Hl, length_replicate.
Qed.


(** ** Serving a request *)

Section Serving.
Variable ParseFloat : string -> result float.
Variable Sincos : float -> float * float.
Variable FFT : list complex128 -> list complex128.
Variable Marshal : list float -> list float -> result string.
Variable Render : Chart -> string.
Variable Sprintf_2f : float -> string.
Variable Execute : context -> list string * option string.

Local Abbreviation served := (serve ParseFloat Sincos FFT Marshal Render Sprintf_2f Execute).
Local Abbreviation getRate := (getRate ParseFloat).

Lemma serve_not_GET r :
  Method r <> MethodGet ->
  served r
  = Some {| writer := {| Header := {[ "Allow" := "GET" ]};
                         Sent := Some (StatusMethodNotAllowed, {[ "Allow" := "GET" ]});
                         Body := "" |};
            stderr := ""; trace := [] |}.
Proof.
  intros Hm. unfold serve, mux, chartHandler, rootHandler.
  rewrite !(decide_False (P := Method r = MethodGet)) by done.
  by destruct (decide (Path r = "/chart")); run_handler.
Qed.

Lemma serve_rejected r e :
  Method r = MethodGet -> getRate r = Err e ->
  exists ctype : string,
    served r
    = Some {| writer := {| Header := {[ "Content-Type" := ctype ]};
                           Sent := Some (StatusBadRequest, {[ "Content-Type" := ctype ]});
                           Body := "" |};
              stderr := ""; trace := [] |}.
Proof.
  intros Hm He. unfold serve, mux, chartHandler, rootHandler.
  rewrite !(decide_True (P := Method r = MethodGet)) by done.
  destruct (decide (Path r = "/chart")).
  - exists "text/html". by rewrite (getChart_bad_rate _ _ _ _ _ _ _ _ He).
  - exists "application/json". by rewrite (get_bad_rate _ _ _ _ _ _ He).
Qed.

Lemma serve_accepted r rate :
  Method r = MethodGet -> getRate r = Ok rate ->
  served r
  = match frequencyTransform Sincos FFT (logisticMap rate) with
    | Some fs =>
        Some (close (if decide (Path r = "/chart")
                     then getChart_result Render Sprintf_2f Execute rate fs
                     else get_result Marshal rate fs))
    | None => None
    end.
Proof.
  intros Hm Hr. unfold serve, mux, chartHandler, rootHandler.
  rewrite !(decide_True (P := Method r = MethodGet)) by done.
  destruct (decide (Path r = "/chart")).
  - rewrite (getChart_good_rate _ _ _ _ _ _ _ _ Hr).
    by destruct (frequencyTransform _ _ _).
  - rewrite (get_good_rate _ _ _ _ _ _ Hr).
    by destruct (frequencyTransform _ _ _).
Qed.




(** C8. A request to [/] or to [/chart] whose method is not GET is
    answered 405 with the header [Allow: GET]. *)
Theorem method_not_allowed r :
  endpoint r -> Method r <> MethodGet ->
  exists w, served r = Some w
    /\ status w = 405 /\ header w "Allow" = Some "GET".
Proof.
  intros _ Hm. eexists. split; [by apply serve_not_GET|]. by split.
Qed.

(** C4, amended. On both endpoints, a GET request whose rate
    parameter has a non-empty first value that the parser rejects is
    answered 400 with an empty body, and the handler calls neither
    logisticMap nor frequencyTransform. *)
Theorem unparseable_rate_bad_request r e :
  endpoint r -> Method r = MethodGet ->
  Values_Get (Query r) "rate" <> "" ->
  ParseFloat (Values_Get (Query r) "rate") = Err e ->
  exists w, served r = Some w
    /\ status w = 400 /\ body w = "" /\ trace w = [].
Proof.
  intros _ Hm Hne He.
  destruct (serve_rejected r e Hm) as [ctype Hs].
  { by rewrite getRate_supplied. }
  eexists. split; [exact Hs|]. by repeat split.
Qed.

(** C5. On both endpoints, a request without the rate parameter is
    served at rate 3.5: getRate returns what the parser makes of
    [DefaultRate], and the pipeline is entered with it. *)
Theorem absent_rate_defaults r :
  Query r !! "rate" = None ->
  ParseFloat DefaultRate = Ok 3.5%float ->
  getRate r = Ok 3.5%float
  /\ (endpoint r -> Method r = MethodGet ->
      forall w, served r = Some w -> head (trace w) = Some (CallLogisticMap 3.5)).
Proof.
  intros Hq Hp.
  assert (Hr : getRate r = Ok 3.5%float).
  { rewrite getRate_default; [done|]. by apply Values_Get_absent. }
  split; [done|]. intros _ Hm w.
  rewrite (serve_accepted r _ Hm Hr).
  destruct (frequencyTransform _ _ _) as [fs|]; [|done].
  intros [= <-]. by destruct (decide (Path r = "/chart")).
Qed.

End Serving.

(** ** The handlers on concrete requests *)

(** C4, counterexample. On [GET /?rate=] the parameter is present and
    its value is no floating-point literal, and the answer is 200 with
    the pipeline run at the default rate. *)
Lemma empty_rate_is_not_rejected :
  Query (GET "/" [("rate", [""])]) !! "rate" = Some [""]
  /\ Packages.ParseFloat (Values_Get (Query (GET "/" [("rate", [""])])) "rate")
     = Err "invalid syntax"
  /\ exists w,
       Packages.run (GET "/" [("rate", [""])]) = Some w
       /\ status w = 200
       /\ head (trace w) = Some (CallLogisticMap 3.5).
Proof.
  split; [by vm_compute|]. split; [by vm_compute|].
  eexists. split; [vm_compute; reflexivity|]. by vm_compute.
Qed.

Lemma method_not_allowed_witness :
  endpoint {| Method := "POST"; Path := "/chart"; Query := ∅ |}
  /\ Method {| Method := "POST"; Path := "/chart"; Query := ∅ |} <> MethodGet
  /\ exists w,
       Packages.run {| Method := "POST"; Path := "/chart"; Query := ∅ |} = Some w
       /\ status w = 405 /\ header w "Allow" = Some "GET".
Proof.
  split; [by right|]. split; [done|].
  apply (method_not_allowed Packages.ParseFloat Packages.Sincos Packages.FFT
           Packages.Marshal Packages.Render Packages.Sprintf_2f Packages.Execute
           {| Method := "POST"; Path := "/chart"; Query := ∅ |}).
  - by right.
  - done.
Defined.

Lemma unparseable_rate_bad_request_witness :
  endpoint (GET "/chart" [("rate", ["abc"])])
  /\ Method (GET "/chart" [("rate", ["abc"])]) = MethodGet
  /\ Values_Get (Query (GET "/chart" [("rate", ["abc"])])) "rate" <> ""
  /\ Packages.ParseFloat (Values_Get (Query (GET "/chart" [("rate", ["abc"])])) "rate")
     = Err "invalid syntax"
  /\ exists w,
       Packages.run (GET "/chart" [("rate", ["abc"])]) = Some w
       /\ status w = 400 /\ body w = "" /\ trace w = [].
Proof.
  split; [by right|]. split; [done|]. split; [done|]. split; [by vm_compute|].
  apply (unparseable_rate_bad_request Packages.ParseFloat Packages.Sincos Packages.FFT
           Packages.Marshal Packages.Render Packages.Sprintf_2f Packages.Execute
           (GET "/chart" [("rate", ["abc"])]) "invalid syntax").
  - by right.
  - done.
  - done.
  - by vm_compute.
Defined.

Lemma absent_rate_defaults_witness :
  Query (GET "/" []) !! "rate" = None
  /\ Packages.ParseFloat DefaultRate = Ok 3.5%float
  /\ getRate Packages.ParseFloat (GET "/" []) = Ok 3.5%float
  /\ (endpoint (GET "/" []) -> Method (GET "/" []) = MethodGet ->
      forall w,
        Packages.run (GET "/" []) = Some w ->
        head (trace w) = Some (CallLogisticMap 3.5)).
Proof.
  split; [done|]. split; [by vm_compute|].
  apply (absent_rate_defaults Packages.ParseFloat Packages.Sincos Packages.FFT
           Packages.Marshal Packages.Render Packages.Sprintf_2f Packages.Execute
           (GET "/" [])).
  - done.
  - by vm_compute.
Defined.


(** ** Rounding, at the level of mantissas *)

Lemma digits2_pos_bounds (m : positive) :
  2 ^ (Zpos (digits2_pos m) - 1) <= Zpos m < 2 ^ Zpos (digits2_pos m).
Proof.
  induction m as [m IH|m IH|]; cbn [digits2_pos].
  - rewrite Pos2Z.inj_succ.
    replace (Z.succ (Zpos (digits2_pos m)) - 1) with (Z.succ (Zpos (digits2_pos m) - 1)) by lia.
    rewrite !Z.pow_succ_r by lia. lia.
  - rewrite Pos2Z.inj_succ.
    replace (Z.succ (Zpos (digits2_pos m)) - 1) with (Z.succ (Zpos (digits2_pos m) - 1)) by lia.
    rewrite !Z.pow_succ_r by lia. lia.
  - cbn. lia.
Qed.

Lemma iter_pos_nat {A} (f : A -> A) (p : positive) (x : A) :
  SpecFloat.iter_pos f p x = Nat.iter (Pos.to_nat p) f x.
Proof.
  revert x. induction p as [p IH|p IH|]; intros x; cbn [SpecFloat.iter_pos].
  - rewrite !IH, Pos2Nat.inj_xI.
    replace (S (2 * Pos.to_nat p)) with (Pos.to_nat p + (Pos.to_nat p + 1))%nat by lia.
    rewrite !Nat.iter_add. reflexivity.
  - rewrite !IH, Pos2Nat.inj_xO.
    replace (2 * Pos.to_nat p)%nat with (Pos.to_nat p + Pos.to_nat p)%nat by lia.
    rewrite Nat.iter_add. reflexivity.
  - reflexivity.
Qed.

Lemma shr_1_nonneg m r s :
  0 <= m ->
  shr_1 {| shr_m := m; shr_r := r; shr_s := s |}
  = {| shr_m := m / 2; shr_r := Z.odd m; shr_s := r || s |}.
Proof.
  intros Hm. rewrite <- Z.div2_div.
  destruct m as [|[p|p|]|]; try reflexivity. lia.
Qed.

(** After [k] shifts: the quotient, and the remainder compared with one
    half of [2 ^ k]. *)
Lemma shr_n_spec (k : nat) (m : Z) :
  0 <= m ->
  let P := 2 ^ Z.of_nat k in
  let st := shr_n k m in
  shr_m st = m / P
  /\ (shr_r st = true <-> P <= 2 * (m mod P))
  /\ (shr_s st = true <-> m mod P <> 0 /\ 2 * (m mod P) <> P).
Proof.
  intros Hm. induction k as [|k IH].
  - cbn. rewrite Z.div_1_r, Z.mod_1_r. repeat split; try lia; try discriminate.
  - cbn zeta in *. change (shr_n (S k) m) with (shr_1 (shr_n k m)).
    destruct (shr_n k m) as [q r s]. cbn [shr_m shr_r shr_s] in IH.
    destruct IH as (Hq & Hr & Hs).
    assert (HP : 0 < 2 ^ Z.of_nat k) by (apply Z.pow_pos_nonneg; lia).
    rewrite Nat2Z.inj_succ, Z.pow_succ_r by lia.
    set (P := 2 ^ Z.of_nat k) in *.
    assert (Hq0 : 0 <= q) by (subst q; apply Z.div_pos; lia).
    rewrite shr_1_nonneg by done. cbn [shr_m shr_r shr_s].
    pose proof (Z.div_mod m P ltac:(lia)) as E1.
    pose proof (Z.mod_pos_bound m P HP) as B1.
    pose proof (Z.div_mod q 2 ltac:(lia)) as E2.
    pose proof (Z.mod_pos_bound q 2 ltac:(lia)) as B2.
    pose proof (Z.div_mod m (2 * P) ltac:(lia)) as E3.
    pose proof (Z.mod_pos_bound m (2 * P) ltac:(lia)) as B3.
    assert (Hdd : m / (2 * P) = q / 2).
    { rewrite (Z.mul_comm 2 P), <- Z.div_div by lia. by rewrite <- Hq. }
    rewrite <- Hq in E1. rewrite Hdd in *.
    set (rem := m mod P) in *. set (rem' := m mod (2 * P)) in *.
    set (q' := q / 2) in *. set (b := q mod 2) in *.
    assert (Hodd : Z.odd q = true <-> b = 1).
    { subst b. rewrite Zmod_odd. destruct (Z.odd q); split; intros; try done; lia. }
    assert (Hpq : P * q = 2 * P * q' + P * b) by (rewrite E2 at 1; ring).
    assert (Hrem' : rem' = rem + P * b) by lia.
    assert (Hb : b = 0 \/ b = 1) by lia.
    split; [done|]. split.
    + rewrite Hodd. destruct Hb as [-> | ->]; lia.
    + rewrite orb_true_iff, Hr, Hs. destruct Hb as [-> | ->]; lia.
Qed.

Lemma rne_shift_cases (m k : Z) :
  0 <= m -> 0 <= k ->
  (rne_shift m k = m / 2 ^ k /\ 2 * (m mod 2 ^ k) <= 2 ^ k)
  \/ (rne_shift m k = m / 2 ^ k + 1 /\ 2 ^ k <= 2 * (m mod 2 ^ k)).
Proof.
  intros Hm Hk. unfold rne_shift.
  pose proof (shr_n_spec (Z.to_nat k) m Hm) as H. cbn zeta in H.
  rewrite Z2Nat.id in H by done.
  assert (HP : 0 < 2 ^ k) by (apply Z.pow_pos_nonneg; lia).
  destruct (shr_n (Z.to_nat k) m) as [q r s]. cbn [shr_m shr_r shr_s] in *.
  destruct H as (-> & Hr & Hs).
  destruct r, s; cbn [loc_of_shr_record round_nearest_even].
  - right. split; [done|]. by apply Hr.
  - assert (2 ^ k <= 2 * (m mod 2 ^ k)) by (by apply Hr).
    destruct (Z.even (m / 2 ^ k)); [left|right]; split; try done.
    destruct (Z.eq_dec (2 * (m mod 2 ^ k)) (2 ^ k)) as [E|E]; [lia|].
    assert (Hs' : false = true) by (apply Hs; lia). discriminate.
  - left. split; [done|].
    destruct (Z_le_gt_dec (2 ^ k) (2 * (m mod 2 ^ k))) as [E|E]; [|lia].
    apply Hr in E. discriminate.
  - left. split; [done|].
    destruct (Z_le_gt_dec (2 ^ k) (2 * (m mod 2 ^ k))) as [E|E]; [|lia].
    apply Hr in E. discriminate.
Qed.

(** What the rounded mantissa is, on the grid of step [2 ^ k]. *)
Lemma rne_shift_grid (m k : Z) :
  0 <= m -> 0 <= k ->
  0 <= rne_shift m k
  /\ (forall B, m <= B * 2 ^ k -> rne_shift m k <= B)
  /\ (forall B, B * 2 ^ k <= m -> B <= rne_shift m k)
  /\ 2 * rne_shift m k * 2 ^ k <= 2 * m + 2 ^ k
  /\ 2 * m <= 2 * rne_shift m k * 2 ^ k + 2 ^ k.
Proof.
  intros Hm Hk.
  assert (HP : 0 < 2 ^ k) by (apply Z.pow_pos_nonneg; lia).
  pose proof (Z.div_mod m (2 ^ k) ltac:(lia)) as E1.
  pose proof (Z.mod_pos_bound m (2 ^ k) HP) as B1.
  assert (Hq0 : 0 <= m / 2 ^ k) by (apply Z.div_pos; lia).
  set (P := 2 ^ k) in *. set (q := m / P) in *. set (rem := m mod P) in *.
  destruct (rne_shift_cases m k Hm Hk) as [[-> Hc] | [-> Hc]];
    fold P q rem in Hc |- *.
  - split; [lia|]. split; [|split; [|split]].
    + intros B HB. nia.
    + intros B HB. nia.
    + nia.
    + nia.
  - split; [lia|]. split; [|split; [|split]].
    + intros B HB. nia.
    + intros B HB. nia.
    + nia.
    + nia.
Qed.

Lemma shr_eq (m e n : Z) :
  shr {| shr_m := m; shr_r := false; shr_s := false |} e n
  = (shr_n (Z.to_nat n) m, Z.max e (e + n)).
Proof.
  unfold shr, shr_n. destruct n as [|p|p].
  - cbn. f_equal. lia.
  - rewrite iter_pos_nat. cbn [Z.to_nat]. f_equal. lia.
  - cbn. f_equal. lia.
Qed.

Lemma fexp_eq e : fexp prec emax e = fexp64 e.
Proof. reflexivity. Qed.

Lemma binary_round_aux_eq sx (mx : positive) ex :
  let e' := Z.max ex (fexp64 (Zpos (digits2_pos mx) + ex)) in
  binary_round_aux prec emax sx (Zpos mx) ex loc_Exact
  = pack sx (rne_shift (Zpos mx) (e' - ex)) e'.
Proof.
  intros e'. unfold binary_round_aux, shr_fexp.
  cbn [shr_record_of_loc Zdigits2]. rewrite shr_eq, fexp_eq.
  set (f := fexp64 (Zpos (digits2_pos mx) + ex)) in *.
  replace (Z.max ex (ex + (f - ex))) with e' by (subst e'; lia).
  replace (Z.to_nat (f - ex)) with (Z.to_nat (e' - ex)) by (subst e'; lia).
  fold (rne_shift (Zpos mx) (e' - ex)).
  set (M := rne_shift (Zpos mx) (e' - ex)).
  pose proof (digits2_pos_bounds mx) as Hd.
  assert (Hk : 0 <= e' - ex) by (subst e'; lia).
  assert (He' : -1074 <= e') by (subst e' f; unfold fexp64; lia).
  assert (HM : 0 <= M <= 2 ^ 53).
  { destruct (rne_shift_grid (Zpos mx) (e' - ex) ltac:(lia) Hk) as (H0 & H1 & _).
    split; [done|]. apply H1.
    rewrite <- Z.pow_add_r by lia.
    assert (Zpos (digits2_pos mx) <= 53 + (e' - ex))
      by (subst e' f; unfold fexp64; lia).
    assert (2 ^ Zpos (digits2_pos mx) <= 2 ^ (53 + (e' - ex)))
      by (apply Z.pow_le_mono_r; lia).
    lia. }
  unfold pack. rewrite fexp_eq.
  destruct (Z.eqb_spec M 0) as [E0|E0].
  - rewrite E0. cbn [Zdigits2]. unfold fexp64.
    cbn [shr_record_of_loc]. rewrite shr_eq.
    replace (Z.to_nat (Z.max (0 + e' - 53) (-1074) - e')) with 0%nat by lia.
    reflexivity.
  - destruct (Z.ltb_spec M (2 ^ 53)) as [E1|E1].
    + destruct M as [|p|p]; [lia| |lia]. cbn [Zdigits2 shr_record_of_loc].
      rewrite shr_eq.
      pose proof (digits2_pos_bounds p) as Hp.
      assert (Zpos (digits2_pos p) <= 53).
      { destruct (Z_le_gt_dec (Zpos (digits2_pos p)) 53) as [?|Hgt]; [done|].
        assert (2 ^ 53 <= 2 ^ (Zpos (digits2_pos p) - 1))
          by (apply Z.pow_le_mono_r; lia).
        lia. }
      unfold fexp64.
      replace (Z.to_nat (Z.max (Zpos (digits2_pos p) + e' - 53) (-1074) - e'))
        with 0%nat by lia.
      cbn [shr_n Nat.iter nat_rect shr_m].
      replace (Z.max e' (e' + (Z.max (Zpos (digits2_pos p) + e' - 53) (-1074) - e')))
        with e' by lia.
      reflexivity.
    + assert (EM : M = 2 ^ 53) by lia. rewrite EM.
      change (Zdigits2 (2 ^ 53)) with 54. cbn [shr_record_of_loc].
      rewrite shr_eq. unfold fexp64.
      replace (Z.max (54 + e' - 53) (-1074) - e') with 1 by lia.
      replace (Z.max e' (e' + 1)) with (e' + 1) by lia.
      reflexivity.
Qed.

(** ** Rounding, at the level of real numbers *)

Lemma pow2_pos e : (0 < pow2 e)%R.
Proof. apply powerRZ_lt. lra. Qed.

Lemma pow2_add a b : pow2 (a + b) = (pow2 a * pow2 b)%R.
Proof. apply powerRZ_add. lra. Qed.

Lemma pow2_IZR k : 0 <= k -> pow2 k = IZR (2 ^ k).
Proof.
  intros Hk. unfold pow2. rewrite <- (Z2Nat.id k) by done.
  rewrite <- pow_powerRZ, <- pow_IZR. reflexivity.
Qed.

Lemma pow2_0 : pow2 0 = 1%R.
Proof. reflexivity. Qed.

Lemma pow2_1 : pow2 1 = 2%R.
Proof. exact (powerRZ_1 2). Qed.

Lemma pow2_ge_1 k : 0 <= k -> (1 <= pow2 k)%R.
Proof.
  intros Hk. rewrite pow2_IZR by done. apply IZR_le.
  assert (0 < 2 ^ k) by (apply Z.pow_pos_nonneg; lia). lia.
Qed.

Lemma pow2_le a b : a <= b -> (pow2 a <= pow2 b)%R.
Proof.
  intros Hab. replace b with (a + (b - a)) by lia. rewrite pow2_add.
  pose proof (pow2_pos a). pose proof (pow2_ge_1 (b - a) ltac:(lia)). nra.
Qed.

Lemma pow2_lt a b : a < b -> (pow2 a < pow2 b)%R.
Proof.
  intros Hab. replace b with (a + 1 + (b - a - 1)) by lia. rewrite !pow2_add.
  pose proof (pow2_pos a). pose proof (pow2_ge_1 (b - a - 1) ltac:(lia)).
  rewrite pow2_1. nra.
Qed.

Lemma pow2_lt_inv a b : (pow2 a < pow2 b)%R -> a < b.
Proof.
  intros H. destruct (Z_lt_ge_dec a b) as [?|Hge]; [done|].
  pose proof (pow2_le b a ltac:(lia)). lra.
Qed.

Lemma pow2_le_inv a b : (pow2 a <= pow2 b)%R -> a <= b.
Proof.
  intros H. destruct (Z_le_gt_dec a b) as [?|Hgt]; [done|].
  pose proof (pow2_lt b a ltac:(lia)). lra.
Qed.

Lemma pow2_succ a : pow2 (a + 1) = (2 * pow2 a)%R.
Proof. rewrite pow2_add. rewrite pow2_1. lra. Qed.

Lemma pow2_pred a : pow2 (a - 1) = (pow2 a / 2)%R.
Proof.
  replace a with (a - 1 + 1) at 2 by lia. rewrite pow2_succ. lra.
Qed.

Lemma F2R_shift m e k : 0 <= k -> F2R (m * 2 ^ k) e = F2R m (e + k).
Proof.
  intros Hk. unfold F2R. rewrite mult_IZR, pow2_add, <- pow2_IZR by done. lra.
Qed.

Lemma F2R_le a b e : (F2R a e <= F2R b e)%R <-> a <= b.
Proof.
  unfold F2R. pose proof (pow2_pos e). split.
  - intros Hle. apply le_IZR. nra.
  - intros Hle. apply IZR_le in Hle. nra.
Qed.

Lemma F2R_lt a b e : (F2R a e < F2R b e)%R <-> a < b.
Proof.
  unfold F2R. pose proof (pow2_pos e). split.
  - intros Hle. apply lt_IZR. nra.
  - intros Hle. apply IZR_lt in Hle. nra.
Qed.

Lemma F2R_0 e : F2R 0 e = 0%R.
Proof. unfold F2R. lra. Qed.

Lemma F2R_pos m e : (0 < F2R (Zpos m) e)%R.
Proof.
  unfold F2R. pose proof (pow2_pos e).
  assert (0 < IZR (Zpos m))%R by (apply IZR_lt; lia). nra.
Qed.

(** The magnitude of a number from the length of its mantissa. *)
Lemma F2R_digits m e :
  (pow2 (Zpos (digits2_pos m) - 1 + e) <= F2R (Zpos m) e
   < pow2 (Zpos (digits2_pos m) + e))%R.
Proof.
  pose proof (digits2_pos_bounds m) as [Hl Hu].
  rewrite !pow2_add.
  rewrite (pow2_IZR (Zpos (digits2_pos m) - 1)), (pow2_IZR (Zpos (digits2_pos m))) by lia.
  unfold F2R.
  pose proof (pow2_pos e). apply IZR_le in Hl. apply IZR_lt in Hu.
  split; nra.
Qed.

Lemma fexp64_mono a b : a <= b -> fexp64 a <= fexp64 b.
Proof. unfold fexp64. lia. Qed.

(** A smaller number has at most as long a mantissa, exponent included. *)
Lemma digits_le_of_F2R_le m1 e1 m2 e2 :
  (F2R (Zpos m1) e1 <= F2R (Zpos m2) e2)%R ->
  Zpos (digits2_pos m1) + e1 <= Zpos (digits2_pos m2) + e2.
Proof.
  intros Hle.
  pose proof (F2R_digits m1 e1) as [H1 _]. pose proof (F2R_digits m2 e2) as [_ H2].
  assert (Hlt : (pow2 (Zpos (digits2_pos m1) - 1 + e1)
                 < pow2 (Zpos (digits2_pos m2) + e2))%R) by lra.
  apply pow2_lt_inv in Hlt. lia.
Qed.

Lemma rne_shift_rounded (m : positive) e e' :
  e <= e' -> fexp64 (Zpos (digits2_pos m) + e) <= e' ->
  rounded (F2R (Zpos m) e) e' (rne_shift (Zpos m) (e' - e)).
Proof.
  intros He Hf.
  destruct (rne_shift_grid (Zpos m) (e' - e) ltac:(lia) ltac:(lia))
    as (H0 & H1 & H2 & H3 & H4).
  set (M := rne_shift (Zpos m) (e' - e)) in *.
  assert (Hsh : forall B, F2R B e' = F2R (B * 2 ^ (e' - e)) e).
  { intros B. rewrite F2R_shift by lia. f_equal. lia. }
  split.
  - split; [done|]. apply H1.
    pose proof (digits2_pos_bounds m) as Hd.
    rewrite <- Z.pow_add_r by lia.
    assert (2 ^ Zpos (digits2_pos m) <= 2 ^ (53 + (e' - e)))
      by (apply Z.pow_le_mono_r; unfold fexp64 in Hf; lia).
    lia.
  - intros B HB. apply H1. rewrite Hsh in HB. by apply F2R_le in HB.
  - intros B HB. apply H2. rewrite Hsh in HB. by apply F2R_le in HB.
  - rewrite Hsh. unfold F2R.
    pose proof (pow2_pos e) as Hp.
    replace (pow2 e') with (pow2 e * IZR (2 ^ (e' - e)))%R.
    2:{ rewrite <- pow2_IZR, <- pow2_add by lia. f_equal. lia. }
    apply IZR_le in H3, H4.
    rewrite !plus_IZR, !mult_IZR in H3, H4.
    rewrite mult_IZR. split; nra.
Qed.

Lemma pack_is_value sx M e :
  0 <= M <= 2 ^ 53 -> is_value sx (F2R M e) (pack sx M e).
Proof.
  intros HM. unfold pack.
  destruct (Z.eqb_spec M 0) as [->|E0]; [constructor; apply F2R_0|].
  destruct (Z.ltb_spec M (2 ^ 53)) as [E1|E1].
  - destruct (Z.leb_spec e 971) as [E2|E2].
    + constructor; [|done]. by rewrite Z2Pos.id by lia.
    + constructor. unfold F2R.
      pose proof (pow2_le 972 e ltac:(lia)). pose proof (pow2_pos 972).
      assert (1 <= IZR M)%R by (apply IZR_le; lia). nra.
  - assert (M = 2 ^ 53) as -> by lia.
    assert (Hsh : F2R (2 ^ 53) e = F2R (2 ^ 52) (e + 1)).
    { rewrite <- F2R_shift by lia. reflexivity. }
    destruct (Z.leb_spec (e + 1) 971) as [E2|E2].
    + constructor; [|done]. by rewrite Hsh.
    + constructor. rewrite Hsh. unfold F2R.
      pose proof (pow2_le 972 (e + 1) ltac:(lia)). pose proof (pow2_pos 972).
      assert (1 <= IZR (2 ^ 52))%R by (apply IZR_le; lia). nra.
Qed.

(** A value below the overflow threshold is a zero or a finite float. *)
Lemma is_value_bounded sx V x :
  is_value sx V x -> (V < pow2 972)%R ->
  (x = S754_zero sx /\ V = 0%R)
  \/ (exists m e, x = S754_finite sx m e /\ F2R (Zpos m) e = V).
Proof.
  intros [H0 | m e Hm He | Hinf] HV; [by left | right; eauto | lra].
Qed.

Lemma is_value_nonneg V x :
  is_value false V x -> (V < pow2 972)%R -> nonneg x /\ val x = V.
Proof.
  intros Hv HV.
  destruct (is_value_bounded _ _ _ Hv HV) as [[-> ->] | (m & e & -> & <-)]; done.
Qed.

Lemma rounded_nonneg v e M : rounded v e M -> (0 <= F2R M e)%R.
Proof.
  intros [[H0 _] _ _ _]. unfold F2R. pose proof (pow2_pos e).
  apply IZR_le in H0. nra.
Qed.

Lemma rounded_exact v e M B : rounded v e M -> v = F2R B e -> M = B.
Proof.
  intros [_ Hb Ha _] ->. apply Z.le_antisymm; [apply Hb | apply Ha]; lra.
Qed.

(** Rounding never crosses a number of the format. *)
Lemma rounded_le_format (m : positive) e0 M (mb : positive) eb :
  rounded (F2R (Zpos m) e0) (fexp64 (Zpos (digits2_pos m) + e0)) M ->
  fexp64 (Zpos (digits2_pos mb) + eb) <= eb ->
  (F2R (Zpos m) e0 <= F2R (Zpos mb) eb)%R ->
  (F2R M (fexp64 (Zpos (digits2_pos m) + e0)) <= F2R (Zpos mb) eb)%R.
Proof.
  intros [_ Hb _ _] Hfb Hle.
  set (f := fexp64 (Zpos (digits2_pos m) + e0)) in *.
  assert (Hf : f <= eb).
  { pose proof (digits_le_of_F2R_le _ _ _ _ Hle).
    pose proof (fexp64_mono (Zpos (digits2_pos m) + e0)
                  (Zpos (digits2_pos mb) + eb) ltac:(lia)). lia. }
  assert (Hsh : F2R (Zpos mb) eb = F2R (Zpos mb * 2 ^ (eb - f)) f).
  { rewrite F2R_shift by lia. f_equal. lia. }
  rewrite Hsh. apply F2R_le. apply Hb. by rewrite <- Hsh.
Qed.

Lemma round_aux_rounded sx (mx : positive) ex :
  ex <= fexp64 (Zpos (digits2_pos mx) + ex) ->
  exists M,
    binary_round_aux prec emax sx (Zpos mx) ex loc_Exact
    = pack sx M (fexp64 (Zpos (digits2_pos mx) + ex))
    /\ rounded (F2R (Zpos mx) ex) (fexp64 (Zpos (digits2_pos mx) + ex)) M.
Proof.
  intros Hf. rewrite binary_round_aux_eq. cbn zeta.
  rewrite Z.max_r by done.
  eexists. split; [reflexivity|]. by apply rne_shift_rounded.
Qed.

Lemma Pos_iter_xO (m d : positive) :
  Zpos (Pos.iter xO m d) = Zpos m * 2 ^ Zpos d
  /\ digits2_pos (Pos.iter xO m d) = (digits2_pos m + d)%positive.
Proof.
  induction d as [|d IH] using Pos.peano_ind.
  - cbn [Pos.iter digits2_pos]. split; lia.
  - rewrite Pos.iter_succ. cbn [digits2_pos]. destruct IH as [IH1 IH2].
    rewrite IH2, Pos2Z.inj_xO, IH1, Pos2Z.inj_succ, Z.pow_succ_r by lia.
    split; lia.
Qed.

Lemma round_rounded sx (mx : positive) ex :
  exists M,
    binary_round prec emax sx mx ex
    = pack sx M (fexp64 (Zpos (digits2_pos mx) + ex))
    /\ rounded (F2R (Zpos mx) ex) (fexp64 (Zpos (digits2_pos mx) + ex)) M.
Proof.
  unfold binary_round. change (fexp prec emax) with fexp64.
  set (f := fexp64 (Zpos (digits2_pos mx) + ex)).
  pose proof (round_aux_rounded sx mx ex) as Haux. fold f in Haux.
  unfold shl_align. destruct (f - ex) as [|d|d] eqn:Hd.
  - destruct Haux as (M & -> & HM); [lia|]. by exists M.
  - destruct Haux as (M & -> & HM); [lia|]. by exists M.
  - clear Haux. destruct (Pos_iter_xO mx d) as [Hm Hdig].
    assert (Hf : fexp64 (Zpos (digits2_pos (Pos.iter xO mx d)) + f) = f).
    { rewrite Hdig, Pos2Z.inj_add. subst f. f_equal. lia. }
    pose proof (round_aux_rounded sx (Pos.iter xO mx d) f) as Haux.
    rewrite Hf in Haux. destruct Haux as (M & -> & HM); [lia|].
    exists M. split; [done|].
    replace (F2R (Zpos mx) ex) with (F2R (Zpos (Pos.iter xO mx d)) f); [done|].
    rewrite Hm, F2R_shift by lia. f_equal. lia.
Qed.

(** What validity says of a finite float. *)
Lemma valid_finite s m e :
  valid_binary (S754_finite s m e) = true ->
  e = fexp64 (Zpos (digits2_pos m) + e) /\ e <= 971.
Proof.
  cbn [SpecFloat.valid_binary]. unfold bounded, canonical_mantissa. intros [H1 H2]%andb_true_iff.
  apply Z.eqb_eq in H1. apply Z.leb_le in H2. change (emax - prec) with 971 in H2.
  rewrite fexp_eq in H1. lia.
Qed.

Lemma digits2_pos_mul (a b : positive) :
  Zpos (digits2_pos a) + Zpos (digits2_pos b) - 1 <= Zpos (digits2_pos (a * b)).
Proof.
  pose proof (digits2_pos_bounds a) as [Ha _].
  pose proof (digits2_pos_bounds b) as [Hb _].
  pose proof (digits2_pos_bounds (a * b)) as [_ Hab].
  assert (H : 2 ^ (Zpos (digits2_pos a) - 1 + (Zpos (digits2_pos b) - 1))
              < 2 ^ Zpos (digits2_pos (a * b))).
  { rewrite Z.pow_add_r by lia. rewrite Pos2Z.inj_mul in Hab.
    assert (0 < 2 ^ (Zpos (digits2_pos a) - 1)) by (apply Z.pow_pos_nonneg; lia).
    assert (0 < 2 ^ (Zpos (digits2_pos b) - 1)) by (apply Z.pow_pos_nonneg; lia).
    nia. }
  apply Z.pow_lt_mono_r_iff in H; lia.
Qed.

Lemma F2R_mul a ea b eb : F2R (a * b) (ea + eb) = (F2R a ea * F2R b eb)%R.
Proof. unfold F2R. rewrite mult_IZR, pow2_add. lra. Qed.

(** The product of two valid finite floats is their exact product,
    rounded. *)
Lemma SF64mul_finite sx mx ex sy my ey :
  valid_binary (S754_finite sx mx ex) = true ->
  valid_binary (S754_finite sy my ey) = true ->
  exists M,
    SF64mul (S754_finite sx mx ex) (S754_finite sy my ey)
    = pack (xorb sx sy) M (fexp64 (Zpos (digits2_pos (mx * my)) + (ex + ey)))
    /\ rounded (F2R (Zpos mx) ex * F2R (Zpos my) ey)
         (fexp64 (Zpos (digits2_pos (mx * my)) + (ex + ey))) M.
Proof.
  intros [Hx _]%valid_finite [Hy _]%valid_finite.
  unfold SF64mul. cbn [SFmul].
  rewrite <- F2R_mul, <- Pos2Z.inj_mul.
  apply round_aux_rounded.
  pose proof (digits2_pos_mul mx my). unfold fexp64 in *. lia.
Qed.

Lemma nonneg_val x : nonneg x -> (0 <= val x)%R.
Proof.
  destruct x as [s|s| |[|] m e]; cbn; try lra; try done.
  intros _. pose proof (F2R_pos m e). lra.
Qed.

Lemma F2R_pow2 k e : 0 <= k -> F2R (2 ^ k) e = pow2 (k + e).
Proof. intros Hk. unfold F2R. by rewrite <- pow2_IZR, pow2_add. Qed.

Lemma F2R_one : F2R (2 ^ 52) (-52) = 1%R.
Proof. by rewrite F2R_pow2. Qed.

Lemma F2R_four : F2R (2 ^ 52) (-50) = 4%R.
Proof.
  rewrite F2R_pow2 by lia. change (52 + -50) with (1 + 1).
  rewrite pow2_add, pow2_1. lra.
Qed.

Lemma pow2_972_big : (4 < pow2 972)%R.
Proof.
  rewrite <- F2R_four, F2R_pow2 by lia. apply pow2_lt. lia.
Qed.

Lemma rounded_le_pow2 (m : positive) e0 M k :
  -1022 <= k ->
  rounded (F2R (Zpos m) e0) (fexp64 (Zpos (digits2_pos m) + e0)) M ->
  (F2R (Zpos m) e0 <= pow2 k)%R ->
  (F2R M (fexp64 (Zpos (digits2_pos m) + e0)) <= pow2 k)%R.
Proof.
  intros Hk HM Hle.
  assert (Hp : pow2 k = F2R (Zpos (Z.to_pos (2 ^ 52))) (k - 52)).
  { change (Zpos (Z.to_pos (2 ^ 52))) with (2 ^ 52).
    rewrite F2R_pow2 by lia. f_equal. lia. }
  rewrite Hp in *. apply rounded_le_format; [done| |done].
  change (Zpos (digits2_pos (Z.to_pos (2 ^ 52)))) with 53.
  unfold fexp64. lia.
Qed.

(** The product of two non-negative valid floats, when it is at most 4:
    either a factor is zero and so is the product, or the product is the
    exact one, rounded. *)
Lemma mul_cases A B :
  valid_binary A = true -> valid_binary B = true ->
  nonneg A -> nonneg B -> (val A * val B <= 4)%R ->
  nonneg (SF64mul A B)
  /\ ((val (SF64mul A B) = 0%R /\ (val A * val B = 0)%R)
      \/ exists m e M,
           (val A * val B)%R = F2R (Zpos m) e
           /\ rounded (F2R (Zpos m) e) (fexp64 (Zpos (digits2_pos m) + e)) M
           /\ val (SF64mul A B) = F2R M (fexp64 (Zpos (digits2_pos m) + e))).
Proof.
  intros HvA HvB HA HB Hle.
  destruct A as [sa|sa| |[|] ma ea]; try done;
    destruct B as [sb|sb| |[|] mb eb]; try done;
    try (split; [done|]; left; cbn; split; [done|lra]).
  destruct (SF64mul_finite false ma ea false mb eb HvA HvB) as (M & -> & HM).
  cbn [val] in *. rewrite <- F2R_mul, <- Pos2Z.inj_mul in *.
  set (f := fexp64 (Zpos (digits2_pos (ma * mb)) + (ea + eb))) in *.
  assert (Hb : (F2R M f <= 4)%R).
  { assert (H4 : pow2 2 = 4%R).
    { change 2 with (1 + 1). rewrite pow2_add, pow2_1. lra. }
    rewrite <- H4. apply rounded_le_pow2; [lia|done|].
    rewrite H4. exact Hle. }
  destruct (is_value_nonneg (F2R M f) (pack (xorb false false) M f)) as [Hn Hv].
  { apply pack_is_value, HM. }
  { pose proof pow2_972_big. lra. }
  split; [done|]. right. exists (ma * mb)%positive, (ea + eb), M. done.
Qed.

Lemma shl_align_fst (m : positive) e ez :
  ez <= e -> Zpos (fst (shl_align m e ez)) = Zpos m * 2 ^ (e - ez).
Proof.
  intros He. unfold shl_align. destruct (ez - e) as [|d|d] eqn:Hd; cbn [fst].
  - replace (e - ez) with 0 by lia. rewrite Z.pow_0_r. lia.
  - lia.
  - destruct (Pos_iter_xO m d) as [-> _]. do 2 f_equal. lia.
Qed.

(** [1 - x] for a valid [x] in (0, 1]: non-negative, at most half a unit
    in the last place above the exact difference, and exact when [x] is
    at least one half. *)
Lemma one_minus (mx : positive) ex :
  valid_binary (S754_finite false mx ex) = true ->
  (F2R (Zpos mx) ex <= 1)%R ->
  let Q := SF64sub ONE (S754_finite false mx ex) in
  nonneg Q
  /\ (val Q <= 1 - F2R (Zpos mx) ex + pow2 (-54))%R
  /\ ((1 / 2 <= F2R (Zpos mx) ex)%R -> val Q = (1 - F2R (Zpos mx) ex)%R).
Proof.
  intros [Hx _]%valid_finite Hle. cbn zeta.
  unfold SF64sub, ONE. cbn [SFsub cond_Zopp].
  set (ez := Z.min (-52) ex).
  rewrite !shl_align_fst by lia.
  set (Mz := Zpos (Z.to_pos (2 ^ 52)) * 2 ^ (-52 - ez) - Zpos mx * 2 ^ (ex - ez)).
  pose proof (F2R_pos mx ex) as Hpos.
  assert (HMz : F2R Mz ez = (1 - F2R (Zpos mx) ex)%R).
  { subst Mz. unfold F2R at 1. rewrite minus_IZR. fold (F2R (Zpos (Z.to_pos (2 ^ 52)) * 2 ^ (-52 - ez)) ez)
      (F2R (Zpos mx * 2 ^ (ex - ez)) ez).
    unfold Rminus. rewrite Rmult_plus_distr_r.
    rewrite <- Ropp_mult_distr_l.
    fold (F2R (Zpos (Z.to_pos (2 ^ 52)) * 2 ^ (-52 - ez)) ez)
      (F2R (Zpos mx * 2 ^ (ex - ez)) ez).
    rewrite !F2R_shift by lia.
    replace (ez + (-52 - ez)) with (-52) by lia.
    replace (ez + (ex - ez)) with ex by lia.
    change (Zpos (Z.to_pos (2 ^ 52))) with (2 ^ 52). rewrite F2R_one. lra. }
  assert (Hd53 : Zpos (digits2_pos mx) <= 53) by (unfold fexp64 in Hx; lia).
  destruct Mz as [|p|p] eqn:EMz.
  - cbn [binary_normalize nonneg val]. rewrite F2R_0 in HMz.
    pose proof (pow2_pos (-54)). split; [done|]. split; lra.
  - cbn [binary_normalize].
    destruct (round_rounded false p ez) as (M & -> & HM).
    set (f := fexp64 (Zpos (digits2_pos p) + ez)) in *.
    pose proof (F2R_digits p ez) as [Hlo Hhi].
    assert (Hdp : Zpos (digits2_pos p) + ez <= 0).
    { assert (Hlt : (pow2 (Zpos (digits2_pos p) - 1 + ez) < pow2 0)%R)
        by (rewrite pow2_0; lra).
      apply pow2_lt_inv in Hlt. lia. }
    assert (Hf : f <= -53) by (subst f; unfold fexp64; lia).
    pose proof (rounded_near _ _ _ HM) as Hnear.
    pose proof (pow2_le f (-53) Hf) as Hpf.
    pose proof (pow2_pred (-53)) as Hp54. change (-53 - 1) with (-54) in Hp54.
    pose proof (pow2_pos f) as Hpf0.
    assert (Hub : (F2R M f <= 1 - F2R (Zpos mx) ex + pow2 (-54))%R) by lra.
    assert (Hp53 : (pow2 (-53) <= 1)%R).
    { rewrite <- pow2_0. apply pow2_le. lia. }
    destruct (is_value_nonneg (F2R M f) (pack false M f)) as [Hn Hv].
    { apply pack_is_value, HM. }
    { pose proof pow2_972_big. lra. }
    rewrite Hv. split; [done|]. split; [done|].
    intros Hhalf.
    (* the difference is on the grid of the result *)
    assert (Hex : -53 <= ex).
    { pose proof (F2R_digits mx ex) as [_ Hhx].
      assert (Hlt : (pow2 (-1) < pow2 (Zpos (digits2_pos mx) + ex))%R).
      { pose proof (pow2_pred 0) as Hm1. rewrite pow2_0 in Hm1.
        change (0 - 1) with (-1) in Hm1. lra. }
      apply pow2_lt_inv in Hlt. lia. }
    assert (Hez : -53 <= ez) by (subst ez; lia).
    assert (Hp52 : Zpos p <= 2 ^ 52).
    { assert (Hle2 : (F2R (Zpos p) ez <= F2R (2 ^ (-1 - ez)) ez)%R).
      { rewrite F2R_pow2 by lia. replace (-1 - ez + ez) with (-1) by lia.
        pose proof (pow2_pred 0) as Hm1. rewrite pow2_0 in Hm1.
        change (0 - 1) with (-1) in Hm1. lra. }
      apply F2R_le in Hle2.
      assert (2 ^ (-1 - ez) <= 2 ^ 52) by (apply Z.pow_le_mono_r; lia). lia. }
    assert (Hdig : Zpos (digits2_pos p) <= 53).
    { pose proof (digits2_pos_bounds p) as [Hl _].
      destruct (Z_le_gt_dec (Zpos (digits2_pos p)) 53) as [?|Hgt]; [done|].
      assert (2 ^ 53 <= 2 ^ (Zpos (digits2_pos p) - 1))
        by (apply Z.pow_le_mono_r; lia).
      lia. }
    assert (Hfe : f <= ez) by (subst f ez; unfold fexp64; lia).
    assert (Hgrid : F2R (Zpos p) ez = F2R (Zpos p * 2 ^ (ez - f)) f).
    { rewrite F2R_shift by lia. f_equal. lia. }
    rewrite (rounded_exact _ _ _ _ HM Hgrid). by rewrite <- Hgrid.
  - exfalso.
    assert (F2R (Zneg p) ez < 0)%R.
    { unfold F2R. pose proof (pow2_pos ez).
      assert (IZR (Zneg p) < 0)%R by (apply IZR_lt; lia). nra. }
    lra.
Qed.

Lemma pow2_2 : pow2 2 = 4%R.
Proof. change 2 with (1 + 1). rewrite pow2_add, pow2_1. lra. Qed.

Lemma pow2_m53 : pow2 (-53) = (2 * pow2 (-54))%R.
Proof. change (-53) with (-54 + 1). apply pow2_succ. Qed.

Lemma pow2_m52 : pow2 (-52) = (4 * pow2 (-54))%R.
Proof. change (-52) with (-53 + 1). rewrite pow2_succ, pow2_m53. lra. Qed.

Lemma pow2_m54_small : (0 < pow2 (-54) <= 1 / 4)%R.
Proof.
  split; [apply pow2_pos|].
  pose proof (pow2_le (-54) (-2) ltac:(lia)) as H.
  pose proof (pow2_add (-2) 2) as H2. rewrite pow2_2 in H2.
  change (-2 + 2) with 0 in H2. rewrite pow2_0 in H2. lra.
Qed.

Lemma val_ONE : val ONE = 1%R.
Proof.
  unfold ONE, val. change (Zpos (Z.to_pos (2 ^ 52))) with (2 ^ 52). apply F2R_one.
Qed.

(** [1 - x] for a valid [x] of the unit interval. *)
Lemma one_minus_unit X :
  valid_binary X = true -> nonneg X -> (val X <= 1)%R ->
  nonneg (SF64sub ONE X)
  /\ (val (SF64sub ONE X) <= 1 - val X + pow2 (-54))%R
  /\ ((1 / 2 <= val X)%R -> val (SF64sub ONE X) = (1 - val X)%R).
Proof.
  intros HvX HX Hle. destruct X as [s|s| |[|] mx ex]; try done.
  - change (SF64sub ONE (S754_zero s)) with ONE. rewrite val_ONE.
    cbn [val]. pose proof pow2_m54_small. repeat split; lra.
  - by apply one_minus.
Qed.

(** [r * x] for valid [r] in [0, 4] and [x] in [0, 1]: at most [4 x]. *)
Lemma mul_rate_bound R X :
  valid_binary R = true -> valid_binary X = true ->
  nonneg R -> (val R <= 4)%R -> nonneg X -> (val X <= 1)%R ->
  nonneg (SF64mul R X) /\ (val (SF64mul R X) <= 4 * val X)%R.
Proof.
  intros HvR HvX HR HR4 HX HX1.
  pose proof (nonneg_val R HR) as HR0. pose proof (nonneg_val X HX) as HX0.
  destruct (mul_cases R X HvR HvX HR HX ltac:(nra)) as [Hn Hc].
  split; [done|].
  destruct Hc as [[-> _] | (m & e & M & Hv & HM & ->)]; [lra|].
  destruct X as [s|s| |[|] mx ex]; try done.
  - cbn [val] in Hv. pose proof (F2R_pos m e). lra.
  - cbn [val] in *. apply valid_finite in HvX as [Hcx _].
    assert (H4 : (4 * F2R (Zpos mx) ex)%R = F2R (Zpos mx) (ex + 2)).
    { unfold F2R. rewrite pow2_add, pow2_2. lra. }
    rewrite H4. apply rounded_le_format; [done| |].
    + unfold fexp64 in *. lia.
    + rewrite <- H4, <- Hv. nra.
Qed.

(** One step of the map on valid floats: [(r * x) * (1 - x)] stays in
    the unit interval. *)
Lemma step_SF R X :
  valid_binary R = true -> valid_binary X = true ->
  nonneg R -> (val R <= 4)%R -> nonneg X -> (val X <= 1)%R ->
  valid_binary (SF64mul R X) = true ->
  valid_binary (SF64sub ONE X) = true ->
  nonneg (SF64mul (SF64mul R X) (SF64sub ONE X))
  /\ (val (SF64mul (SF64mul R X) (SF64sub ONE X)) <= 1)%R.
Proof.
  intros HvR HvX HR HR4 HX HX1 HvP HvQ.
  destruct (mul_rate_bound R X HvR HvX HR HR4 HX HX1) as [HP HP4].
  destruct (one_minus_unit X HvX HX HX1) as (HQ & HQle & HQex).
  set (P := SF64mul R X) in *. set (Q := SF64sub ONE X) in *.
  pose proof (nonneg_val X HX) as HX0.
  pose proof (nonneg_val P HP) as HP0. pose proof (nonneg_val Q HQ) as HQ0.
  pose proof pow2_m54_small as [He0 He4].
  set (x := val X) in *. set (p := val P) in *. set (q := val Q) in *.
  set (eps := pow2 (-54)) in *.
  assert (Hsq : (4 * x * (1 - x) <= 1)%R).
  { pose proof (Rle_0_sqr (2 * x - 1)) as Hs. unfold Rsqr in Hs. lra. }
  assert (Hpq : (p * q <= 4 * x * (1 - x + eps))%R).
  { assert (p * q <= 4 * x * q)%R by (apply Rmult_le_compat_r; lra).
    assert (4 * x * q <= 4 * x * (1 - x + eps))%R
      by (apply Rmult_le_compat_l; lra).
    lra. }
  destruct (mul_cases P Q HvP HvQ HP HQ ltac:(fold p q; nra)) as [Hn Hc].
  split; [done|]. fold p q in Hc.
  destruct Hc as [[-> _] | (m & e & M & Hv & HM & ->)]; [lra|].
  destruct (Rle_lt_dec (p * q) 1) as [Hle|Hgt].
  - rewrite <- pow2_0. apply rounded_le_pow2; [lia|done|].
    rewrite pow2_0, <- Hv. exact Hle.
  - (* the exact product may exceed one by less than a quarter of a unit
       in the last place, and is rounded down to one *)
    assert (Hx : (x < 1 / 2)%R).
    { destruct (Rlt_le_dec x (1 / 2)) as [?|Hge]; [done|].
      specialize (HQex Hge). nra. }
    assert (Hlt : (p * q < 1 + 2 * eps)%R) by nra.
    pose proof (F2R_digits m e) as [Hlo Hhi]. rewrite <- Hv in Hlo, Hhi.
    assert (Hde : Zpos (digits2_pos m) + e = 1).
    { assert (H1 : (pow2 0 < pow2 (Zpos (digits2_pos m) + e))%R)
        by (rewrite pow2_0; lra).
      assert (H2 : (pow2 (Zpos (digits2_pos m) - 1 + e) < pow2 1)%R)
        by (rewrite pow2_1; lra).
      apply pow2_lt_inv in H1, H2. lia. }
    rewrite Hde in *. change (fexp64 1) with (-52) in *.
    pose proof (rounded_near _ _ _ HM) as [_ Hnear].
    rewrite <- Hv, pow2_m52 in Hnear. fold eps in Hnear.
    assert (HM1 : (F2R M (-52) < F2R (2 ^ 52 + 1) (-52))%R).
    { unfold F2R at 2. rewrite plus_IZR, Rmult_plus_distr_r.
      fold (F2R (2 ^ 52) (-52)). rewrite F2R_one, pow2_m52. fold eps. lra. }
    apply F2R_lt in HM1.
    rewrite <- F2R_one. apply F2R_le. lia.
Qed.

(** ** From float comparisons to real numbers and back *)

Lemma Prim2SF_one : Prim2SF 1 = ONE.
Proof. reflexivity. Qed.

Lemma Prim2SF_four : Prim2SF 4 = S754_finite false (Z.to_pos (2 ^ 52)) (-50).
Proof. reflexivity. Qed.

Lemma Prim2SF_zero : Prim2SF 0 = S754_zero false.
Proof. reflexivity. Qed.

(** [0 <= x <= c] for [c = 2 ^ (52 + ec)], read on a valid float. *)
Lemma leb_bounds X ec :
  valid_binary X = true ->
  SFleb (S754_zero false) X = true ->
  SFleb X (S754_finite false (Z.to_pos (2 ^ 52)) ec) = true ->
  nonneg X /\ (val X <= pow2 (52 + ec))%R.
Proof.
  intros HvX H0 Hc.
  destruct X as [s|[|]| |[|] m e]; try done.
  - split; [done|]. cbn [val]. pose proof (pow2_pos (52 + ec)). lra.
  - split; [done|]. cbn [val].
    apply valid_finite in HvX as [Hcx _].
    unfold SFleb, SFcompare in Hc.
    rewrite <- (F2R_pow2 52 ec) by lia.
    destruct (Z.compare_spec e ec) as [->|Hlt|Hgt]; [| |done].
    + apply F2R_le.
      change (Pos.compare_cont Eq m (Z.to_pos (2 ^ 52)))
        with (m ?= Z.to_pos (2 ^ 52))%positive in Hc.
      destruct (Pos.compare_spec m (Z.to_pos (2 ^ 52))) as [->|Hl|Hg];
        [done| |done].
      change (2 ^ 52) with (Zpos (Z.to_pos (2 ^ 52))). lia.
    + pose proof (F2R_digits m e) as [_ Hhi].
      rewrite F2R_pow2 by lia.
      pose proof (pow2_le (Zpos (digits2_pos m) + e) (52 + ec)
                    ltac:(unfold fexp64 in Hcx; lia)).
      lra.
Qed.

Lemma bounds_leb X ec :
  valid_binary X = true -> -1074 < ec ->
  nonneg X -> (val X <= pow2 (52 + ec))%R ->
  SFleb (S754_zero false) X = true
  /\ SFleb X (S754_finite false (Z.to_pos (2 ^ 52)) ec) = true.
Proof.
  intros HvX Hec HX Hle.
  destruct X as [s|[|]| |[|] m e]; try done.
  split; [done|]. cbn [val] in Hle.
  apply valid_finite in HvX as [Hcx _].
  unfold SFleb, SFcompare.
  rewrite <- (F2R_pow2 52 ec) in Hle by lia.
  pose proof (F2R_digits m e) as [Hlo _].
  destruct (Z.compare_spec e ec) as [->|Hlt|Hgt]; [|done|].
  - apply F2R_le in Hle.
    change (Pos.compare_cont Eq m (Z.to_pos (2 ^ 52)))
      with (m ?= Z.to_pos (2 ^ 52))%positive.
    destruct (Pos.compare_spec m (Z.to_pos (2 ^ 52))) as [->|Hl|Hg];
      [done|done|].
    change (2 ^ 52) with (Zpos (Z.to_pos (2 ^ 52))) in Hle. lia.
  - exfalso.
    assert (Hd : Zpos (digits2_pos m) = 53) by (unfold fexp64 in Hcx; lia).
    rewrite Hd, F2R_pow2 in * by lia.
    pose proof (pow2_lt (52 + ec) (53 - 1 + e) ltac:(lia)). lra.
Qed.

Lemma in_unit_interval_val x :
  in_unit_interval x <-> nonneg (Prim2SF x) /\ (val (Prim2SF x) <= 1)%R.
Proof.
  unfold in_unit_interval. rewrite !FloatAxioms.leb_spec, Prim2SF_zero, Prim2SF_one.
  pose proof (Prim2SF_valid x) as Hv. unfold ONE. split.
  - intros [H0 H1]. rewrite <- pow2_0. by apply (leb_bounds _ (-52)).
  - intros [Hn Hle]. apply bounds_leb; [done|lia|done|].
    change (52 + -52) with 0. by rewrite pow2_0.
Qed.

Lemma rate_val r :
  (0 <=? r)%float = true -> (r <=? 4)%float = true ->
  nonneg (Prim2SF r) /\ (val (Prim2SF r) <= 4)%R.
Proof.
  rewrite !FloatAxioms.leb_spec, Prim2SF_zero, Prim2SF_four. intros H0 H4.
  rewrite <- pow2_2. apply (leb_bounds _ (-50)); [apply Prim2SF_valid|done..].
Qed.

(** ** The map keeps the unit interval *)

Lemma logisticStep_unit_interval rate x :
  (0 <=? rate)%float = true -> (rate <=? 4)%float = true ->
  in_unit_interval x -> in_unit_interval (logisticStep rate x).
Proof.
  intros H0 H4 [HX HX1]%in_unit_interval_val.
  destruct (rate_val rate H0 H4) as [HR HR4].
  apply in_unit_interval_val. unfold logisticStep.
  rewrite FloatAxioms.mul_spec.
  pose proof (Prim2SF_valid (rate * x)) as HvP.
  pose proof (Prim2SF_valid (1 - x)) as HvQ.
  rewrite FloatAxioms.mul_spec in *. rewrite FloatAxioms.sub_spec, Prim2SF_one in *.
  apply step_SF; auto using Prim2SF_valid.
Qed.

Lemma Start_unit_interval : in_unit_interval Start.
Proof. split; reflexivity. Qed.

Lemma iterate_unit_interval rate n :
  (0 <=? rate)%float = true -> (rate <=? 4)%float = true ->
  in_unit_interval (iterate rate n).
Proof.
  intros H0 H4. induction n as [|n IH]; cbn [iterate].
  - apply Start_unit_interval.
  - by apply logisticStep_unit_interval.
Qed.

(** C10. For every rate [r] with [0 <= r <= 4], each of the 100
    elements of the series is in the closed interval [0, 1]; the iteration
    keeps the interval at every step, in binary64 arithmetic as Go
    evaluates it. *)
Theorem logisticMap_unit_interval (rate : float) :
  (0 <=? rate)%float = true -> (rate <=? 4)%float = true ->
  Forall in_unit_interval (logisticMap rate).
Proof.
  intros H0 H4.
  rewrite logisticMap_iterates.
  apply Forall_forall. intros x [n [-> _]]%list_elem_of_fmap.
  by apply iterate_unit_interval.
Qed.

Lemma logisticMap_unit_interval_witness :
  (0 <=? 4)%float = true /\ (4 <=? 4)%float = true
  /\ Forall in_unit_interval (logisticMap 4).
Proof.
  split; [reflexivity|]. split; [reflexivity|].
  apply (logisticMap_unit_interval 4); reflexivity.
Defined.

(** ** The complex lift of frequencyTransform *)











(** An infinite entry, which an extreme rate produces, has no zero
    imaginary part in the lift. *)
Lemma Rect_infinity :
  Rect Packages.Sincos infinity 0 = Complex infinity nan.
Proof. reflexivity. Qed.

(** ** More on the series: what overflows stays overflowed, what dies
    out stays dead *)

(** Two elements of the series, the second [k] steps after the first. *)
Lemma logisticMap_later rate i j x y :
  (i <= j)%nat ->
  logisticMap rate !! i = Some x -> logisticMap rate !! j = Some y ->
  y = Nat.iter (j - i) (logisticStep rate) x.
Proof.
  intros Hij Hx Hy.
  assert (Hj : (j < Iterations)%nat).
  { apply lookup_lt_Some in Hy. by rewrite logisticMap_length in Hy. }
  rewrite logisticMap_lookup in Hx by lia. rewrite logisticMap_lookup in Hy by lia.
  injection Hx as <-. injection Hy as <-.
  rewrite !iterate_iter.
  change (Nat.iter (S j) (logisticStep rate) Start
          = Nat.iter (j - i) (logisticStep rate)
              (Nat.iter (S i) (logisticStep rate) Start)).
  rewrite <- Nat.iter_add. f_equal. lia.
Qed.

Lemma logisticStep_not_finite rate x :
  is_finite x = false -> is_finite (logisticStep rate x) = false.
Proof.
  unfold is_finite, logisticStep.
  rewrite !FloatAxioms.mul_spec, FloatAxioms.sub_spec, Prim2SF_one.
  destruct (Prim2SF x) as [s|s| |s m e]; try done; intros _;
    destruct (Prim2SF rate) as [sr|sr| |sr mr er];
    try destruct s; try destruct sr; reflexivity.
Qed.

Lemma iter_not_finite rate k x :
  is_finite x = false -> is_finite (Nat.iter k (logisticStep rate) x) = false.
Proof.
  intros Hx. induction k as [|k IH]; [done|].
  cbn [Nat.iter]. by apply logisticStep_not_finite.
Qed.

(** X1. An infinity or a NaN in the series is never followed by a
    finite value, whatever the rate: the finite elements of the series
    are a prefix of it. *)
Theorem logisticMap_finite_prefix (rate : float) (i j : nat) (x y : float) :
  (i <= j)%nat ->
  logisticMap rate !! i = Some x -> logisticMap rate !! j = Some y ->
  is_finite y = true -> is_finite x = true.
Proof.
  intros Hij Hx Hy Hfin.
  rewrite (logisticMap_later rate i j x y Hij Hx Hy) in Hfin.
  destruct (is_finite x) eqn:E; [done|].
  by rewrite iter_not_finite in Hfin.
Qed.

Lemma logisticStep_zero rate x :
  is_finite rate = true -> (x =? 0)%float = true ->
  (logisticStep rate x =? 0)%float = true.
Proof.
  unfold is_finite, logisticStep.
  rewrite !FloatAxioms.eqb_spec, !FloatAxioms.mul_spec, FloatAxioms.sub_spec,
    Prim2SF_one, Prim2SF_zero.
  intros Hr Hx.
  destruct (Prim2SF x) as [[|]|[|]| |[|] m e]; try discriminate Hx;
    destruct (Prim2SF rate) as [[|]|[|]| |[|] mr er]; try discriminate Hr;
    reflexivity.
Qed.

Lemma iter_zero rate k x :
  is_finite rate = true -> (x =? 0)%float = true ->
  (Nat.iter k (logisticStep rate) x =? 0)%float = true.
Proof.
  intros Hr Hx. induction k as [|k IH]; [done|].
  cbn [Nat.iter]. by apply logisticStep_zero.
Qed.

Lemma logisticStep_rate_zero rate :
  (rate =? 0)%float = true -> (logisticStep rate Start =? 0)%float = true.
Proof.
  unfold logisticStep.
  rewrite !FloatAxioms.eqb_spec, !FloatAxioms.mul_spec, Prim2SF_zero.
  intros Hr.
  destruct (Prim2SF rate) as [[|]|[|]| |[|] mr er]; try discriminate Hr;
    by vm_compute.
Qed.

(** X2. For a finite rate, a zero in the series is followed by zeros
    only; and for the rate zero, of either sign, every element is a
    zero. *)
Theorem logisticMap_zero_suffix (rate : float) :
  is_finite rate = true ->
  (forall i j x y,
     (i <= j)%nat ->
     logisticMap rate !! i = Some x -> (x =? 0)%float = true ->
     logisticMap rate !! j = Some y -> (y =? 0)%float = true)
  /\ ((rate =? 0)%float = true ->
      Forall (fun y => (y =? 0)%float = true) (logisticMap rate)).
Proof.
  intros Hr. split.
  - intros i j x y Hij Hx Hx0 Hy.
    rewrite (logisticMap_later rate i j x y Hij Hx Hy). by apply iter_zero.
  - intros Hr0. rewrite logisticMap_iterates.
    apply Forall_forall. intros y [n [-> _]]%list_elem_of_fmap.
    rewrite iterate_iter, Nat.iter_succ_r.
    apply iter_zero; [done|]. by apply logisticStep_rate_zero.
Qed.

Lemma logisticMap_zero_suffix_witness :
  is_finite 0x1p-700 = true
  /\ logisticMap 0x1p-700 !! 1%nat = Some 0%float
  /\ logisticMap 0x1p-700 !! 99%nat = Some 0%float.
Proof.
  split; [reflexivity|]. split; [reflexivity|].
  destruct (logisticMap_zero_suffix 0x1p-700 eq_refl) as [Habs _].
  destruct (logisticMap 0x1p-700 !! 99%nat) as [y|] eqn:Hy; [|by vm_compute in Hy].
  pose proof (Habs 1%nat 99%nat 0%float y ltac:(lia) eq_refl eq_refl Hy) as Hz.
  vm_compute in Hy. injection Hy as <-. reflexivity.
Defined.

Lemma logisticMap_finite_prefix_witness :
  exists x y,
    (3 <= 98)%nat
    /\ logisticMap 3.5 !! 3%nat = Some x /\ logisticMap 3.5 !! 98%nat = Some y
    /\ is_finite y = true /\ is_finite x = true.
Proof.
  eexists _, _. split; [lia|].
  split; [vm_compute; reflexivity|]. split; [vm_compute; reflexivity|].
  split; [reflexivity|].
  eapply (logisticMap_finite_prefix 3.5 3 98); [lia|reflexivity|reflexivity|reflexivity].
Defined.

(** The series of the rate [2 ^ 600] overflows at its second element
    and stays at minus infinity. *)
Lemma logisticMap_overflow :
  logisticMap 0x1p+600 !! 1%nat = Some neg_infinity
  /\ logisticMap 0x1p+600 !! 99%nat = Some neg_infinity.
Proof. split; reflexivity. Qed.

(** ** The transform, whatever the library returns *)

Lemma frequencyTransform_cases Sincos FFT series :
  length series = Iterations ->
  frequencyTransform Sincos FFT series
  = if decide (length (FFT (lift Sincos series)) <= Iterations)%nat
    then Some (map real (FFT (lift Sincos series))
               ++ replicate (Iterations - length (FFT (lift Sincos series))) 0%float)
    else None.
Proof.
  intros Hs. unfold frequencyTransform, lift.
  rewrite range_loop_store_map by (rewrite length_replicate; lia).
  cbn [take]. rewrite Nat.add_0_l, Hs.
  rewrite drop_ge by (by rewrite length_replicate).
  rewrite app_nil_l, app_nil_r.
  case_decide as Hn.
  - rewrite range_loop_store_map by (rewrite length_replicate; lia).
    cbn [take]. rewrite Nat.add_0_l, app_nil_l.
    by rewrite drop_replicate.
  - apply range_loop_store_overflow. rewrite length_replicate. lia.
Qed.

(** X3. On an array of 100 floats the transform writes the real part
    of each coefficient the library returns, in order, and leaves the
    zeros of the output array behind them when the library returns
    fewer than 100; when it returns more than 100 the store runs out
    of the array and the function panics. *)
Theorem frequencyTransform_short_or_long Sincos FFT (series : list float) :
  length series = Iterations ->
  let frequencies := FFT (lift Sincos series) in
  ((length frequencies <= Iterations)%nat ->
     frequencyTransform Sincos FFT series
     = Some (map real frequencies
             ++ replicate (Iterations - length frequencies) 0%float))
  /\ ((Iterations < length frequencies)%nat ->
        frequencyTransform Sincos FFT series = None).
Proof.
  intros Hs frequencies. subst frequencies.
  rewrite (frequencyTransform_cases _ _ _ Hs).
  split; intros Hn; [by rewrite decide_True|by rewrite decide_False by lia].
Qed.

Lemma frequencyTransform_short_or_long_witness :
  length (logisticMap 3.5) = Iterations
  /\ frequencyTransform Packages.Sincos (take 2) (logisticMap 3.5)
     = Some (take 2 (logisticMap 3.5) ++ replicate 98 0%float)
  /\ frequencyTransform Packages.Sincos (fun input => input ++ input) (logisticMap 3.5)
     = None.
Proof.
  split; [reflexivity|].
  destruct (frequencyTransform_short_or_long Packages.Sincos (take 2)
              (logisticMap 3.5) eq_refl) as [Hshort _].
  destruct (frequencyTransform_short_or_long Packages.Sincos (fun input => input ++ input)
              (logisticMap 3.5) eq_refl) as [_ Hlong].
  split.
  - rewrite Hshort by (vm_compute; lia). vm_compute. reflexivity.
  - apply Hlong. vm_compute. lia.
Defined.

(** ** What is written to the response *)

Lemma append_assoc (a b c : string) : (a +:+ b) +:+ c = a +:+ (b +:+ c).
Proof.
  induction a as [|x a IH]; [done|].
  change (String x ((a +:+ b) +:+ c) = String x (a +:+ b +:+ c)). by f_equal.
Qed.

Lemma append_nil_r (a : string) : a +:+ "" = a.
Proof.
  induction a as [|x a IH]; [done|].
  change (String x (a +:+ "") = String x a). by f_equal.
Qed.

Lemma write_body_body c wr : Body (write_body c wr) = Body wr +:+ c.
Proof. unfold write_body, send_header. by destruct (Sent wr). Qed.

Lemma write_chunks_body chunks wr :
  Body (foldl (fun wr c => write_body c wr) wr chunks) = Body wr +:+ written chunks.
Proof.
  revert wr. induction chunks as [|c chunks IH]; intros wr; cbn [foldl written foldr].
  - by rewrite append_nil_r.
  - rewrite IH, write_body_body. apply append_assoc.
Qed.

Lemma write_body_header c wr : Header (write_body c wr) = Header wr.
Proof. unfold write_body, send_header. by destruct (Sent wr). Qed.

Lemma write_chunks_header chunks wr :
  Header (foldl (fun wr c => write_body c wr) wr chunks) = Header wr.
Proof.
  revert wr. induction chunks as [|c chunks IH]; intros wr; cbn [foldl]; [done|].
  by rewrite IH, write_body_header.
Qed.

Lemma rateParam_getRate ParseFloat r : getRate ParseFloat r = ParseFloat (rateParam r).
Proof. reflexivity. Qed.

Section Responses.
Variable ParseFloat : string -> result float.
Variable Sincos : float -> float * float.
Variable FFT : list complex128 -> list complex128.
Variable Marshal : list float -> list float -> result string.
Variable Render : Chart -> string.
Variable Sprintf_2f : float -> string.
Variable Execute : context -> list string * option string.

Local Abbreviation served := (serve ParseFloat Sincos FFT Marshal Render Sprintf_2f Execute).
Local Abbreviation getRate := (getRate ParseFloat).

(** The response to a chart request, field by field. *)
Lemma getChart_result_fields rate fs chunks err :
  Execute {| TemplateBody := Render (timeChart rate) +:+ Render (frequencyChart fs);
             Rate := Sprintf_2f rate |} = (chunks, err) ->
  let w := close (getChart_result Render Sprintf_2f Execute rate fs) in
  body w = written chunks
  /\ header w "Content-Type" = Some "text/html"
  /\ status w = match chunks, err with
                | [], Some _ => StatusInternalServerError
                | _, _ => StatusOK
                end
  /\ stderr w = match chunks, err with
                | _ :: _, Some _ => superfluous_WriteHeader
                | _, _ => ""
                end +:+ match err with
                        | Some e => e +:+ String (Ascii.ascii_of_nat 10) ""
                        | None => ""
                        end.
Proof.
  intros Hex. cbn zeta.
  unfold body, header, status, close, getChart_result. cbn [writer stderr].
  change ("" +:+ Render (timeChart rate)) with (Render (timeChart rate)).
  rewrite Hex. cbn [fst snd].
  set (H := ({[ "Content-Type" := "text/html" ]} : gmap string string)).
  set (wr := foldl _ _ chunks).
  assert (Hb : Body wr = written chunks) by (subst wr; by rewrite write_chunks_body).
  assert (Hh : Header wr = H) by (subst wr; by rewrite write_chunks_header).
  assert (Hs : Sent wr = match chunks with [] => None | _ => Some (StatusOK, H) end)
    by (subst wr; apply write_chunks_status).
  destruct chunks as [|c chunks], err as [e|]; unfold send_header;
    rewrite ?Hs; cbn [Sent Body Header]; rewrite ?Hs, ?Hb, ?Hh; done.
Qed.

(** C7. Whenever a response is produced, the arrays it is made of
    have 100 elements each.  For a GET request with an accepted rate the
    time series and the frequency series exist, they are the series of
    the rate and its transform, and each has 100 elements; on [/] they
    are the two arrays handed to the JSON encoder, whose output is the
    body, and on [/chart] they are the y values of the two charts
    rendered into the page, each against 100 x values.  No response
    hands on an array of another length. *)
Theorem output_arrays_full r w :
  endpoint r -> served r = Some w ->
  Forall arrays_full (trace w)
  /\ (Method r = MethodGet -> forall rate, getRate r = Ok rate ->
      exists time frequency : list float,
        time = logisticMap rate
        /\ frequencyTransform Sincos FFT time = Some frequency
        /\ length time = 100%nat /\ length frequency = 100%nat
        /\ (Path r = "/" ->
            trace w = [CallLogisticMap rate; CallFrequencyTransform time;
                       CallMarshal time frequency]
            /\ forall out, Marshal time frequency = Ok out ->
                 status w = 200 /\ body w = out)
        /\ (Path r = "/chart" ->
            exists tc fc : Chart,
              trace w = [CallLogisticMap rate; CallFrequencyTransform time;
                         CallRender tc; CallRender fc]
              /\ YValues tc = time /\ YValues fc = frequency
              /\ length (XValues tc) = 100%nat /\ length (XValues fc) = 100%nat
              /\ body w = written (Execute {| TemplateBody := Render tc +:+ Render fc;
                                              Rate := Sprintf_2f rate |}).1)).
Proof.
  intros _ Hs. split.
  - revert Hs. destruct (decide (Method r = MethodGet)) as [Hm|Hm].
    + destruct (getRate r) as [rate|e] eqn:Hr.
      * rewrite (serve_accepted _ _ _ _ _ _ _ r rate Hm Hr).
        destruct (frequencyTransform _ _ _) as [fs|] eqn:Hf; [|done].
        apply frequencyTransform_length in Hf.
        pose proof (logisticMap_length rate) as Ht.
        intros [= <-].
        destruct (decide (Path r = "/chart")); cbn [close trace get_result getChart_result];
          repeat constructor; cbn [XValues YValues timeChart frequencyChart];
          try done; apply axis_length.
      * destruct (serve_rejected ParseFloat Sincos FFT Marshal Render Sprintf_2f Execute
                    r e Hm Hr) as [ctype ->].
        intros [= <-]. constructor.
    + rewrite serve_not_GET by done. intros [= <-]. constructor.
  - intros Hm rate Hr.
    rewrite (serve_accepted _ _ _ _ _ _ _ r rate Hm Hr) in Hs.
    destruct (frequencyTransform Sincos FFT (logisticMap rate)) as [fs|] eqn:Hf; [|done].
    injection Hs as <-.
    exists (logisticMap rate), fs.
    split; [done|]. split; [done|].
    split; [apply logisticMap_length|].
    split; [by apply frequencyTransform_length in Hf|].
    split.
    + intros Hp. rewrite decide_False by (by rewrite Hp).
      split; [reflexivity|]. intros out Hout.
      unfold status, body, close, get_result. cbn [writer].
      rewrite Hout. cbn [Sent Body send_header]. by split.
    + intros Hp. rewrite decide_True by done.
      exists (timeChart rate), (frequencyChart fs).
      split; [reflexivity|]. split; [reflexivity|]. split; [reflexivity|].
      split; [apply axis_length|]. split; [apply axis_length|].
      destruct (Execute {| TemplateBody := Render (timeChart rate) +:+ Render (frequencyChart fs);
                           Rate := Sprintf_2f rate |}) as [chunks err] eqn:Hex.
      by destruct (getChart_result_fields rate fs chunks err Hex) as (-> & _).
Qed.


(** X5. A GET request to [/] whose rate is accepted and whose arrays
    the encoder accepts is answered 200 with the encoder's output as the
    whole body and the content type [application/json]; nothing is
    logged, and what is encoded is the series of the rate together with
    its transform. *)
Theorem root_encodes_series (r : Request) (rate : float) (fs : list float) (out : string) :
  Method r = MethodGet -> Path r = "/" -> getRate r = Ok rate ->
  frequencyTransform Sincos FFT (logisticMap rate) = Some fs ->
  Marshal (logisticMap rate) fs = Ok out ->
  exists w, served r = Some w
    /\ status w = 200 /\ body w = out
    /\ header w "Content-Type" = Some "application/json"
    /\ stderr w = ""
    /\ trace w = [CallLogisticMap rate; CallFrequencyTransform (logisticMap rate);
                  CallMarshal (logisticMap rate) fs].
Proof.
  intros Hm Hp Hr Hf Hout.
  rewrite (serve_accepted _ _ _ _ _ _ _ r rate Hm Hr), Hf.
  rewrite decide_False by (by rewrite Hp).
  eexists. split; [done|].
  unfold status, body, header, close, get_result. cbn [writer stderr trace].
  rewrite Hout. cbn [Sent Body send_header]. repeat split.
Qed.

(** X6. When the encoder fails on a GET request to [/], the answer is
    500 with an empty body, still with the content type
    [application/json], and the encoder's error goes to the standard
    error stream followed by a newline. *)
Theorem root_encoder_failure (r : Request) (rate : float) (fs : list float) (err : string) :
  Method r = MethodGet -> Path r = "/" -> getRate r = Ok rate ->
  frequencyTransform Sincos FFT (logisticMap rate) = Some fs ->
  Marshal (logisticMap rate) fs = Err err ->
  exists w, served r = Some w
    /\ status w = 500 /\ body w = ""
    /\ header w "Content-Type" = Some "application/json"
    /\ stderr w = err +:+ String (Ascii.ascii_of_nat 10) "".
Proof.
  intros Hm Hp Hr Hf Herr.
  rewrite (serve_accepted _ _ _ _ _ _ _ r rate Hm Hr), Hf.
  rewrite decide_False by (by rewrite Hp).
  eexists. split; [done|].
  unfold status, body, header, close, get_result. cbn [writer stderr trace].
  rewrite Herr. cbn [Sent Body send_header]. repeat split.
Qed.

(** X7. The page of a GET request to [/chart] is what the template
    writes for the two charts rendered one after the other, time chart
    first, and the rate formatted with two decimals.  The body is the
    template's chunks in order and the content type is [text/html].  A
    template error is written to the standard error stream, followed by
    a newline; it turns the status into 500 only when the template had
    written nothing, otherwise the status stays 200 over a truncated
    page, and the late [WriteHeader] makes the server log a line of its
    own before the error. *)
Theorem chart_page (r : Request) (rate : float) (fs : list float)
    (chunks : list string) (err : option string) :
  Method r = MethodGet -> Path r = "/chart" -> getRate r = Ok rate ->
  frequencyTransform Sincos FFT (logisticMap rate) = Some fs ->
  Execute {| TemplateBody := Render (timeChart rate) +:+ Render (frequencyChart fs);
             Rate := Sprintf_2f rate |} = (chunks, err) ->
  exists (w : World) (logged : string), served r = Some w
    /\ body w = written chunks
    /\ header w "Content-Type" = Some "text/html"
    /\ status w = match chunks, err with
                  | [], Some _ => 500
                  | _, _ => 200
                  end
    /\ stderr w = logged +:+ match err with
                             | Some e => e +:+ String (Ascii.ascii_of_nat 10) ""
                             | None => ""
                             end
    /\ (logged = "" <-> chunks = [] \/ err = None)
    /\ trace w = [CallLogisticMap rate; CallFrequencyTransform (logisticMap rate);
                  CallRender (timeChart rate); CallRender (frequencyChart fs)].
Proof.
  intros Hm Hp Hr Hf Hex.
  rewrite (serve_accepted _ _ _ _ _ _ _ r rate Hm Hr), Hf.
  rewrite decide_True by done.
  destruct (getChart_result_fields rate fs chunks err Hex) as (Hb & Hh & Hs & He).
  eexists _, _. split; [done|].
  split; [exact Hb|]. split; [exact Hh|]. split; [exact Hs|]. split; [exact He|].
  split; [|reflexivity].
  destruct chunks as [|c chunks], err as [e|].
  - split; [by left|reflexivity].
  - split; [by left|reflexivity].
  - split; [intros H; cbv in H; discriminate H|intros [H|H]; discriminate H].
  - split; [by right|reflexivity].
Qed.

(** X8. The content type of an answer depends on the method and the
    endpoint only, not on the outcome: [application/json] on [/] and
    [text/html] on [/chart] for every GET request, also when the answer
    is 400 or 500, and none at all on a 405. *)
Theorem content_type_by_endpoint (r : Request) (w : World) :
  endpoint r -> served r = Some w ->
  header w "Content-Type"
  = if decide (Method r = MethodGet)
    then Some (if decide (Path r = "/chart") then "text/html" else "application/json")
    else None.
Proof.
  intros _. destruct (decide (Method r = MethodGet)) as [Hm|Hm].
  - destruct (getRate r) as [rate|e] eqn:Hr.
    + rewrite (serve_accepted _ _ _ _ _ _ _ r rate Hm Hr).
      destruct (frequencyTransform _ _ _) as [fs|]; [|done].
      intros [= <-]. destruct (decide (Path r = "/chart")).
      * destruct (Execute {| TemplateBody := Render (timeChart rate) +:+ Render (frequencyChart fs);
                             Rate := Sprintf_2f rate |}) as [chunks err] eqn:Hex.
        by destruct (getChart_result_fields rate fs chunks err Hex) as (_ & -> & _).
      * unfold header, close, get_result. cbn [writer].
        by destruct (Marshal _ _).
    + unfold serve, mux, chartHandler, rootHandler.
      rewrite !(decide_True (P := Method r = MethodGet)) by done.
      destruct (decide (Path r = "/chart")).
      * rewrite (getChart_bad_rate _ _ _ _ _ _ _ _ Hr). by intros [= <-].
      * rewrite (get_bad_rate _ _ _ _ _ _ Hr). by intros [= <-].
  - rewrite serve_not_GET by done. by intros [= <-].
Qed.

(** X9. Every answer has one of the four statuses 200, 400, 405 and
    500, and only a 200 carries a body.  A 400 or a 405 is sent before
    any computation: nothing was called and nothing logged. *)
Theorem statuses_and_bodies (r : Request) (w : World) :
  endpoint r -> served r = Some w ->
  (status w = 200 \/ status w = 400 \/ status w = 405 \/ status w = 500)
  /\ (status w <> 200 -> body w = "")
  /\ (status w = 400 \/ status w = 405 -> trace w = [] /\ stderr w = "").
Proof.
  intros _. destruct (decide (Method r = MethodGet)) as [Hm|Hm].
  - destruct (getRate r) as [rate|e] eqn:Hr.
    + rewrite (serve_accepted _ _ _ _ _ _ _ r rate Hm Hr).
      destruct (frequencyTransform _ _ _) as [fs|]; [|done].
      intros [= <-]. destruct (decide (Path r = "/chart")).
      * destruct (Execute {| TemplateBody := Render (timeChart rate) +:+ Render (frequencyChart fs);
                             Rate := Sprintf_2f rate |}) as [chunks err] eqn:Hex.
        destruct (getChart_result_fields rate fs chunks err Hex) as (Hb & _ & Hs & _).
        cbn zeta in Hb, Hs. rewrite Hb, Hs.
        destruct chunks as [|c chunks], err as [e0|]; cbn;
          (split; [auto|]); (split; [done|]); by intros [?|?].
      * unfold status, body, close, get_result. cbn [writer stderr trace].
        destruct (Marshal _ _); cbn;
          (split; [auto|]); (split; [done|]); by intros [?|?].
    + destruct (serve_rejected ParseFloat Sincos FFT Marshal Render Sprintf_2f Execute
                  r e Hm Hr) as [ctype ->].
      intros [= <-]. cbn. split; [auto|]. done.
  - rewrite serve_not_GET by done. intros [= <-]. cbn. split; [auto|]. done.
Qed.

(** X10. On the two endpoints the answer depends on three things
    only: whether the method is GET, the path, and the string handed to
    the parser, which is the first value of [rate] or the default when
    that is missing or empty.  Other parameters, further values of
    [rate] and the name of a method that is not GET change nothing. *)
Theorem served_alike (r r' : Request) :
  endpoint r ->
  (Method r = MethodGet <-> Method r' = MethodGet) ->
  Path r = Path r' ->
  rateParam r = rateParam r' ->
  served r = served r'.
Proof.
  intros _ Hm Hp Hq.
  assert (Hr : getRate r = getRate r') by (by rewrite !rateParam_getRate, Hq).
  destruct (decide (Method r = MethodGet)) as [Hg|Hg].
  - pose proof (proj1 Hm Hg) as Hg'.
    destruct (getRate r) as [rate|e] eqn:E.
    + rewrite (serve_accepted _ _ _ _ _ _ _ r rate Hg E).
      rewrite (serve_accepted _ _ _ _ _ _ _ r' rate Hg' (eq_sym Hr)).
      by rewrite Hp.
    + unfold serve, mux, chartHandler, rootHandler.
      rewrite !(decide_True (P := Method r = MethodGet)) by done.
      rewrite !(decide_True (P := Method r' = MethodGet)) by done.
      rewrite <- Hp. symmetry in Hr.
      destruct (decide (Path r = "/chart")).
      * by rewrite (getChart_bad_rate _ _ _ _ _ _ _ _ E),
          (getChart_bad_rate _ _ _ _ _ _ _ _ Hr).
      * by rewrite (get_bad_rate _ _ _ _ _ _ E), (get_bad_rate _ _ _ _ _ _ Hr).
  - assert (Hg' : Method r' <> MethodGet) by tauto.
    by rewrite !serve_not_GET.
Qed.
End Responses.

(** ** The answers to some requests *)

Lemma root_encodes_series_witness :
  exists w,
    Packages.run (GET "/" [("rate", ["2"])]) = Some w
    /\ status w = 200 /\ body w = "{}"
    /\ header w "Content-Type" = Some "application/json"
    /\ stderr w = ""
    /\ trace w = [CallLogisticMap 2; CallFrequencyTransform (logisticMap 2);
                  CallMarshal (logisticMap 2) (logisticMap 2)].
Proof.
  apply (root_encodes_series Packages.ParseFloat Packages.Sincos Packages.FFT
           Packages.Marshal Packages.Render Packages.Sprintf_2f Packages.Execute
           (GET "/" [("rate", ["2"])]) 2 (logisticMap 2) "{}").
  - reflexivity.
  - reflexivity.
  - vm_compute. reflexivity.
  - vm_compute. reflexivity.
  - vm_compute. reflexivity.
Defined.

Lemma root_encoder_failure_witness :
  exists w,
    Packages.run (GET "/" [("rate", ["NaN"])]) = Some w
    /\ status w = 500 /\ body w = ""
    /\ header w "Content-Type" = Some "application/json"
    /\ stderr w = "json: unsupported value" +:+ String (Ascii.ascii_of_nat 10) "".
Proof.
  apply (root_encoder_failure Packages.ParseFloat Packages.Sincos Packages.FFT
           Packages.Marshal Packages.Render Packages.Sprintf_2f Packages.Execute
           (GET "/" [("rate", ["NaN"])]) nan (logisticMap nan) "json: unsupported value").
  - reflexivity.
  - reflexivity.
  - vm_compute. reflexivity.
  - vm_compute. reflexivity.
  - vm_compute. reflexivity.
Defined.

(** A template that fails after its first chunk: the page is cut short
    and the status is 200. *)
Lemma chart_page_witness :
  exists (w : World) (logged : string),
    serve Packages.ParseFloat Packages.Sincos Packages.FFT Packages.Marshal
      Packages.Render Packages.Sprintf_2f
      (fun ctx => (["<html>"; TemplateBody ctx], Some "template: broken pipe"))
      (GET "/chart" []) = Some w
    /\ body w = "<html><svg/><svg/>"
    /\ header w "Content-Type" = Some "text/html"
    /\ status w = 200
    /\ stderr w = logged +:+ "template: broken pipe" +:+ String (Ascii.ascii_of_nat 10) ""
    /\ (logged = "" <-> ["<html>"; "<svg/><svg/>"] = []
                        \/ Some "template: broken pipe" = @None string)
    /\ trace w = [CallLogisticMap 3.5; CallFrequencyTransform (logisticMap 3.5);
                  CallRender (timeChart 3.5); CallRender (frequencyChart (logisticMap 3.5))].
Proof.
  apply (chart_page Packages.ParseFloat Packages.Sincos Packages.FFT
           Packages.Marshal Packages.Render Packages.Sprintf_2f
           (fun ctx => (["<html>"; TemplateBody ctx], Some "template: broken pipe"))
           (GET "/chart" []) 3.5 (logisticMap 3.5)
           ["<html>"; "<svg/><svg/>"] (Some "template: broken pipe")).
  - reflexivity.
  - reflexivity.
  - vm_compute. reflexivity.
  - vm_compute. reflexivity.
  - reflexivity.
Defined.

Lemma content_type_by_endpoint_witness :
  exists w,
    endpoint (GET "/chart" [("rate", ["abc"])])
    /\ Packages.run (GET "/chart" [("rate", ["abc"])]) = Some w
    /\ status w = 400
    /\ header w "Content-Type" = Some "text/html".
Proof.
  eexists. split; [by right|]. split; [vm_compute; reflexivity|]. split; [reflexivity|].
  apply (content_type_by_endpoint Packages.ParseFloat Packages.Sincos Packages.FFT
           Packages.Marshal Packages.Render Packages.Sprintf_2f Packages.Execute
           (GET "/chart" [("rate", ["abc"])])).
  - by right.
  - vm_compute. reflexivity.
Defined.

Lemma statuses_and_bodies_witness :
  exists w,
    endpoint (GET "/" [("rate", ["inf"])])
    /\ Packages.run (GET "/" [("rate", ["inf"])]) = Some w
    /\ (status w = 200 \/ status w = 400 \/ status w = 405 \/ status w = 500)
    /\ (status w <> 200 -> body w = "")
    /\ (status w = 400 \/ status w = 405 -> trace w = [] /\ stderr w = "").
Proof.
  eexists. split; [by left|]. split; [vm_compute; reflexivity|].
  apply (statuses_and_bodies Packages.ParseFloat Packages.Sincos Packages.FFT
           Packages.Marshal Packages.Render Packages.Sprintf_2f Packages.Execute
           (GET "/" [("rate", ["inf"])])).
  - by left.
  - vm_compute. reflexivity.
Defined.

Lemma served_alike_witness :
  Packages.run {| Method := "GET"; Path := "/";
                  Query := list_to_map [("rate", ["3.5"; "abc"]); ("seed", ["7"])] |}
  = Packages.run (GET "/" [])
  /\ Packages.run {| Method := "POST"; Path := "/chart";
                     Query := list_to_map [("rate", [""])] |}
     = Packages.run {| Method := "DELETE"; Path := "/chart"; Query := ∅ |}.
Proof.
  split.
  - apply (served_alike Packages.ParseFloat Packages.Sincos Packages.FFT
             Packages.Marshal Packages.Render Packages.Sprintf_2f Packages.Execute).
    + by left.
    + done.
    + reflexivity.
    + vm_compute. reflexivity.
  - apply (served_alike Packages.ParseFloat Packages.Sincos Packages.FFT
             Packages.Marshal Packages.Render Packages.Sprintf_2f Packages.Execute).
    + by right.
    + split; intros [=].
    + reflexivity.
    + vm_compute. reflexivity.
Defined.


Lemma output_arrays_full_witness :
  endpoint (GET "/chart" [("rate", ["4"])])
  /\ exists w,
       Packages.run (GET "/chart" [("rate", ["4"])]) = Some w
       /\ Forall arrays_full (trace w)
       /\ exists (time frequency : list float) (tc fc : Chart),
            length time = 100%nat /\ length frequency = 100%nat
            /\ trace w = [CallLogisticMap 4; CallFrequencyTransform time;
                          CallRender tc; CallRender fc]
            /\ YValues tc = time /\ YValues fc = frequency
            /\ length (XValues tc) = 100%nat /\ length (XValues fc) = 100%nat.
Proof.
  split; [by right|].
  destruct (Packages.run (GET "/chart" [("rate", ["4"])])) as [w|] eqn:Hrun;
    [|by vm_compute in Hrun].
  exists w. split; [reflexivity|].
  destruct (output_arrays_full Packages.ParseFloat Packages.Sincos Packages.FFT
              Packages.Marshal Packages.Render Packages.Sprintf_2f Packages.Execute
              (GET "/chart" [("rate", ["4"])]) w (or_intror eq_refl) Hrun)
    as [Hall Harr].
  split; [exact Hall|].
  destruct (Harr eq_refl 4%float) as (time & frequency & _ & _ & Ht & Hf & _ & Hchart).
  { vm_compute. reflexivity. }
  destruct (Hchart eq_refl) as (tc & fc & Htr & Hy1 & Hy2 & Hx1 & Hx2 & _).
  exists time, frequency, tc, fc.
  exact (conj Ht (conj Hf (conj Htr (conj Hy1 (conj Hy2 (conj Hx1 Hx2)))))).
Defined.

(** ** Rates that are not finite *)

Lemma SF64mul_not_finite A B :
  match A with S754_infinity _ | S754_nan => True | _ => False end ->
  match SF64mul A B with S754_infinity _ | S754_nan => True | _ => False end.
Proof.
  destruct A as [sa|sa| |sa ma ea]; try done; intros _;
    destruct B as [sb|sb| |sb mb eb]; done.
Qed.

Lemma logisticStep_rate_not_finite rate x :
  is_finite rate = false -> is_finite (logisticStep rate x) = false.
Proof.
  unfold is_finite, logisticStep.
  rewrite !FloatAxioms.mul_spec.
  intros Hr.
  pose proof (SF64mul_not_finite (Prim2SF rate) (Prim2SF x)) as H1.
  pose proof (SF64mul_not_finite (SF64mul (Prim2SF rate) (Prim2SF x)) (Prim2SF (1 - x))) as H2.
  destruct (Prim2SF rate); try discriminate Hr;
    specialize (H2 (H1 I)); by destruct (SF64mul _ (Prim2SF (1 - x))).
Qed.

(** X11. When the rate is an infinity or NaN, which the parser
    accepts, no element of the series is finite. *)
Theorem logisticMap_rate_not_finite (rate : float) :
  is_finite rate = false ->
  Forall (fun x => is_finite x = false) (logisticMap rate).
Proof.
  intros Hr. rewrite logisticMap_iterates.
  apply Forall_forall. intros x [n [-> _]]%list_elem_of_fmap.
  cbn [iterate]. by apply logisticStep_rate_not_finite.
Qed.

Lemma logisticMap_rate_not_finite_witness :
  is_finite infinity = false
  /\ Forall (fun x => is_finite x = false) (logisticMap infinity).
Proof.
  split; [reflexivity|]. by apply (logisticMap_rate_not_finite infinity).
Defined.

(** ** The x axes of the charts *)

Lemma axis_loop step (n : nat) : forall (i : nat) (xs : list float),
  (i + n <= length xs)%nat ->
  foldl (fun xs i => <[i := (float64_of_nat i * step)%float]> xs) xs (seq i n)
  = take i xs ++ map (fun i => (float64_of_nat i * step)%float) (seq i n)
    ++ drop (i + n) xs.
Proof.
  induction n as [|n IH]; intros i xs Hlen; cbn [seq foldl map].
  - rewrite Nat.add_0_r. cbn [app]. by rewrite take_drop.
  - rewrite IH by (rewrite length_insert; lia).
    rewrite (take_S_r _ _ (float64_of_nat i * step)%float)
      by (apply list_lookup_insert_eq; lia).
    rewrite take_insert_ge by lia.
    rewrite drop_insert_lt by lia.
    rewrite <- app_assoc. cbn [app].
    by replace (S i + n)%nat with (i + S n)%nat by lia.
Qed.

(** X12. The loop that fills an x axis leaves in cell [i] the product
    of [float64(i)] and the step, for each of the 100 cells; on both
    charts, the time chart of any rate and the frequency chart of any
    array the transform returns, the x values are as many as the y
    values. *)
Theorem axis_cells (step : float) :
  axis step = map (fun i => (float64_of_nat i * step)%float) (seq 0 Iterations)
  /\ (forall i, (i < Iterations)%nat ->
        axis step !! i = Some (float64_of_nat i * step)%float)
  /\ (forall rate, length (XValues (timeChart rate)) = length (YValues (timeChart rate)))
  /\ (forall Sincos FFT series fs,
        frequencyTransform Sincos FFT series = Some fs ->
        length (XValues (frequencyChart fs)) = length (YValues (frequencyChart fs))).
Proof.
  assert (Heq : axis step
                = map (fun i => (float64_of_nat i * step)%float) (seq 0 Iterations)).
  { unfold axis. rewrite axis_loop by (by rewrite length_replicate).
    cbn [take]. rewrite app_nil_l, drop_ge by (by rewrite length_replicate).
    by rewrite app_nil_r. }
  split; [done|]. split; [|split].
  - intros i Hi. rewrite Heq, list_lookup_fmap, lookup_seq_lt by done. done.
  - intros rate. cbn [timeChart XValues YValues].
    by rewrite axis_length, logisticMap_length.
  - intros Sincos FFT series fs Hf. cbn [frequencyChart XValues YValues].
    apply frequencyTransform_length in Hf. by rewrite axis_length, Hf.
Qed.

(** ** Rates of the unit interval: the series never grows *)

(** [1 - x] is at most one. *)
Lemma one_minus_le_one X :
  valid_binary X = true -> nonneg X -> (val X <= 1)%R ->
  (val (SF64sub ONE X) <= 1)%R.
Proof.
  intros HvX HX Hle. destruct X as [s|s| |[|] mx ex]; try done.
  - change (SF64sub ONE (S754_zero s)) with ONE. rewrite val_ONE. lra.
  - cbn [val] in Hle. apply valid_finite in HvX as [Hx _].
    unfold SF64sub, ONE. cbn [SFsub cond_Zopp].
    set (ez := Z.min (-52) ex).
    rewrite !shl_align_fst by lia.
    set (Mz := Zpos (Z.to_pos (2 ^ 52)) * 2 ^ (-52 - ez) - Zpos mx * 2 ^ (ex - ez)).
    pose proof (F2R_pos mx ex) as Hpos.
    assert (HMz : F2R Mz ez = (1 - F2R (Zpos mx) ex)%R).
    { subst Mz. unfold F2R at 1. rewrite minus_IZR.
      unfold Rminus. rewrite Rmult_plus_distr_r.
      rewrite <- Ropp_mult_distr_l.
      fold (F2R (Zpos (Z.to_pos (2 ^ 52)) * 2 ^ (-52 - ez)) ez)
        (F2R (Zpos mx * 2 ^ (ex - ez)) ez).
      rewrite !F2R_shift by lia.
      replace (ez + (-52 - ez)) with (-52) by lia.
      replace (ez + (ex - ez)) with ex by lia.
      change (Zpos (Z.to_pos (2 ^ 52))) with (2 ^ 52). rewrite F2R_one. lra. }
    destruct Mz as [|p|p] eqn:EMz.
    + cbn [binary_normalize val]. lra.
    + cbn [binary_normalize].
      destruct (round_rounded false p ez) as (M & -> & HM).
      set (f := fexp64 (Zpos (digits2_pos p) + ez)) in *.
      assert (Hub : (F2R M f <= pow2 0)%R).
      { apply rounded_le_pow2; [lia|done|]. rewrite pow2_0. lra. }
      rewrite pow2_0 in Hub.
      destruct (is_value_nonneg (F2R M f) (pack false M f)) as [Hn Hv].
      { apply pack_is_value, HM. }
      { pose proof pow2_972_big. lra. }
      by rewrite Hv.
    + cbn [binary_normalize].
      exfalso.
      assert (F2R (Zneg p) ez < 0)%R.
      { unfold F2R. pose proof (pow2_pos ez).
        assert (IZR (Zneg p) < 0)%R by (apply IZR_lt; lia). nra. }
      lra.
Qed.

(** A product that is at most a float, exactly, is at most that float
    once rounded. *)
Lemma mul_le_float A B C :
  valid_binary A = true -> valid_binary B = true -> valid_binary C = true ->
  nonneg A -> nonneg B -> nonneg C ->
  (val A * val B <= val C)%R -> (val C <= 4)%R ->
  nonneg (SF64mul A B) /\ (val (SF64mul A B) <= val C)%R.
Proof.
  intros HvA HvB HvC HA HB HC Hle Hc4.
  destruct (mul_cases A B HvA HvB HA HB ltac:(lra)) as [Hn Hc].
  split; [done|].
  pose proof (nonneg_val C HC) as HC0.
  destruct Hc as [[-> _] | (m & e & M & Hv & HM & ->)]; [lra|].
  destruct C as [s|s| |[|] mc ec]; try done.
  - cbn [val] in Hle. pose proof (F2R_pos m e). lra.
  - cbn [val] in *. apply valid_finite in HvC as [Hcc _].
    apply rounded_le_format; [done|lia|]. by rewrite <- Hv.
Qed.

(** One step of the map at a rate of the unit interval: the result is
    at most the argument. *)
Lemma step_le R X :
  valid_binary R = true -> valid_binary X = true ->
  nonneg R -> (val R <= 1)%R -> nonneg X -> (val X <= 1)%R ->
  valid_binary (SF64mul R X) = true ->
  valid_binary (SF64sub ONE X) = true ->
  nonneg (SF64mul (SF64mul R X) (SF64sub ONE X))
  /\ (val (SF64mul (SF64mul R X) (SF64sub ONE X)) <= val X)%R.
Proof.
  intros HvR HvX HR HR1 HX HX1 HvP HvQ.
  pose proof (nonneg_val R HR) as HR0. pose proof (nonneg_val X HX) as HX0.
  destruct (mul_le_float R X X HvR HvX HvX HR HX HX) as [HP HPX]; [nra|lra|].
  destruct (one_minus_unit X HvX HX HX1) as (HQ & _ & _).
  pose proof (one_minus_le_one X HvX HX HX1) as HQ1.
  set (P := SF64mul R X) in *. set (Q := SF64sub ONE X) in *.
  pose proof (nonneg_val P HP) as HP0. pose proof (nonneg_val Q HQ) as HQ0.
  destruct (mul_le_float P Q P HvP HvQ HvP HP HQ HP) as [HY HYP]; [nra|lra|].
  split; [done|lra].
Qed.

(** The order of the values of two valid non-negative floats is the
    order [<=?] computes. *)
Lemma val_le_leb X Y :
  valid_binary X = true -> valid_binary Y = true ->
  nonneg X -> nonneg Y -> (val X <= val Y)%R -> SFleb X Y = true.
Proof.
  intros HvX HvY HX HY Hle.
  destruct X as [sx|sx| |[|] mx ex]; try done;
    destruct Y as [sy|sy| |[|] my ey]; try done.
  - cbn [val] in Hle. pose proof (F2R_pos mx ex). lra.
  - cbn [val] in Hle.
    apply valid_finite in HvX as [Hcx _]. apply valid_finite in HvY as [Hcy _].
    unfold SFleb, SFcompare.
    pose proof (F2R_digits mx ex) as [Hlx Hhx].
    pose proof (F2R_digits my ey) as [Hly Hhy].
    destruct (Z.compare_spec ex ey) as [->|Hlt|Hgt]; [|done|].
    + apply F2R_le in Hle.
      change (Pos.compare_cont Eq mx my) with (mx ?= my)%positive.
      destruct (Pos.compare_spec mx my) as [->|Hl|Hg]; [done|done|lia].
    + exfalso.
      assert (Hd : Zpos (digits2_pos mx) = 53) by (unfold fexp64 in Hcx, Hcy; lia).
      assert (Hdy : Zpos (digits2_pos my) + ey <= 52 + ex) by (unfold fexp64 in Hcy; lia).
      rewrite Hd in Hlx.
      pose proof (pow2_le _ _ Hdy). replace (53 - 1 + ex) with (52 + ex) in Hlx by lia.
      lra.
Qed.

Lemma logisticStep_le rate x :
  in_unit_interval rate -> in_unit_interval x ->
  in_unit_interval (logisticStep rate x)
  /\ (val (Prim2SF (logisticStep rate x)) <= val (Prim2SF x))%R.
Proof.
  intros [HR HR1]%in_unit_interval_val [HX HX1]%in_unit_interval_val.
  rewrite in_unit_interval_val. unfold logisticStep.
  rewrite FloatAxioms.mul_spec.
  pose proof (Prim2SF_valid (rate * x)) as HvP.
  pose proof (Prim2SF_valid (1 - x)) as HvQ.
  rewrite FloatAxioms.mul_spec in *. rewrite FloatAxioms.sub_spec, Prim2SF_one in *.
  destruct (step_le (Prim2SF rate) (Prim2SF x)) as [Hn Hle];
    auto using Prim2SF_valid.
  split; [split; [done|lra]|done].
Qed.

Lemma iter_le rate k x :
  in_unit_interval rate -> in_unit_interval x ->
  in_unit_interval (Nat.iter k (logisticStep rate) x)
  /\ (val (Prim2SF (Nat.iter k (logisticStep rate) x)) <= val (Prim2SF x))%R.
Proof.
  intros Hr Hx. induction k as [|k [IH1 IH2]].
  - split; [done|apply Rle_refl].
  - destruct (logisticStep_le rate _ Hr IH1) as [H1 H2].
    split; [exact H1|]. eapply Rle_trans; [exact H2|exact IH2].
Qed.

Lemma unit_interval_leb x y :
  in_unit_interval x -> in_unit_interval y ->
  (val (Prim2SF y) <= val (Prim2SF x))%R -> (y <=? x)%float = true.
Proof.
  intros [Hx _]%in_unit_interval_val [Hy _]%in_unit_interval_val Hle.
  rewrite FloatAxioms.leb_spec. apply val_le_leb; auto using Prim2SF_valid.
Qed.

(** X13. For a rate between 0 and 1 the series never grows: each
    element is at most every element before it, and at most the start
    value, in binary64 arithmetic as Go evaluates it. *)
Theorem logisticMap_never_grows (rate : float) :
  (0 <=? rate)%float = true -> (rate <=? 1)%float = true ->
  (forall i j x y,
     (i <= j)%nat ->
     logisticMap rate !! i = Some x -> logisticMap rate !! j = Some y ->
     (y <=? x)%float = true)
  /\ Forall (fun y => (y <=? Start)%float = true) (logisticMap rate).
Proof.
  intros H0 H1. assert (Hr : in_unit_interval rate) by done.
  split.
  - intros i j x y Hij Hx Hy.
    assert (Hxu : in_unit_interval x).
    { apply lookup_lt_Some in Hx as Hi. rewrite logisticMap_length in Hi.
      rewrite logisticMap_lookup in Hx by done. injection Hx as <-.
      rewrite iterate_iter.
      apply (iter_le rate (S i) Start Hr Start_unit_interval). }
    rewrite (logisticMap_later rate i j x y Hij Hx Hy).
    destruct (iter_le rate (j - i) x Hr Hxu) as [Hyu Hle].
    by apply unit_interval_leb.
  - rewrite logisticMap_iterates.
    apply Forall_forall. intros y [n [-> _]]%list_elem_of_fmap.
    rewrite iterate_iter.
    destruct (iter_le rate (S n) Start Hr Start_unit_interval) as [Hyu Hle].
    apply unit_interval_leb; [apply Start_unit_interval|done|done].
Qed.

Lemma logisticMap_never_grows_witness :
  (0 <=? 0.75)%float = true /\ (0.75 <=? 1)%float = true
  /\ exists x y,
       logisticMap 0.75 !! 2%nat = Some x /\ logisticMap 0.75 !! 50%nat = Some y
       /\ (y <=? x)%float = true.
Proof.
  split; [reflexivity|]. split; [reflexivity|].
  destruct (logisticMap_never_grows 0.75 eq_refl eq_refl) as [Hdec _].
  eexists _, _. split; [vm_compute; reflexivity|]. split; [vm_compute; reflexivity|].
  apply (Hdec 2%nat 50%nat); [lia|reflexivity|reflexivity].
Defined.

(** ** A rate that is not finite, end to end *)

Lemma logisticMap_head rate : logisticMap rate !! 0%nat = Some (logisticStep rate Start).
Proof. rewrite logisticMap_lookup by (unfold Iterations; lia). reflexivity. Qed.

Lemma Packages_Marshal_refuses time frequency :
  Exists (fun x => is_finite x = false) time ->
  exists err, Packages.Marshal time frequency = Err err.
Proof.
  intros Hex. unfold Packages.Marshal.
  assert (Hf : forallb is_finite time = false).
  { apply not_true_is_false. intros Hall. rewrite forallb_forall in Hall.
    apply Exists_exists in Hex as (x & Hin & Hx).
    apply list_elem_of_In in Hin. rewrite (Hall x Hin) in Hx. done. }
  rewrite Hf. eauto.
Qed.

Section NotFinite.
Variable ParseFloat : string -> result float.
Variable Sincos : float -> float * float.
Variable FFT : list complex128 -> list complex128.
Variable Marshal : list float -> list float -> result string.
Variable Render : Chart -> string.
Variable Sprintf_2f : float -> string.
Variable Execute : context -> list string * option string.

Local Abbreviation served := (serve ParseFloat Sincos FFT Marshal Render Sprintf_2f Execute).
Local Abbreviation getRate := (getRate ParseFloat).

(** X14. The encoder of the JSON endpoint refuses NaN and the
    infinities.  With such an encoder, a GET request to [/] whose rate
    is accepted but is not finite, as for [rate=NaN] or [rate=inf], is
    not answered 400: the series is computed, the encoder fails on it,
    and the answer is 500 with an empty body and the error logged. *)
Theorem root_not_finite_rate (r : Request) (rate : float) (fs : list float) :
  (forall time frequency,
     Exists (fun x => is_finite x = false) time ->
     exists err, Marshal time frequency = Err err) ->
  Method r = MethodGet -> Path r = "/" -> getRate r = Ok rate ->
  is_finite rate = false ->
  frequencyTransform Sincos FFT (logisticMap rate) = Some fs ->
  exists w err, served r = Some w
    /\ status w = 500 /\ body w = ""
    /\ stderr w = err +:+ String (Ascii.ascii_of_nat 10) ""
    /\ head (trace w) = Some (CallLogisticMap rate).
Proof.
  intros HM Hm Hp Hr Hnf Hf.
  destruct (HM (logisticMap rate) fs) as [err Herr].
  { apply Exists_exists. exists (logisticStep rate Start). split.
    - eapply list_elem_of_lookup_2, logisticMap_head.
    - by apply logisticStep_rate_not_finite. }
  rewrite (serve_accepted _ _ _ _ _ _ _ r rate Hm Hr), Hf.
  rewrite decide_False by (by rewrite Hp).
  eexists _, err. split; [done|].
  unfold status, body, header, close, get_result. cbn [writer stderr trace].
  rewrite Herr. cbn [Sent Body send_header]. repeat split.
Qed.
End NotFinite.

Lemma root_not_finite_rate_witness :
  exists w err,
    Packages.run (GET "/" [("rate", ["-Inf"])]) = Some w
    /\ status w = 500 /\ body w = ""
    /\ stderr w = err +:+ String (Ascii.ascii_of_nat 10) ""
    /\ head (trace w) = Some (CallLogisticMap neg_infinity).
Proof.
  apply (root_not_finite_rate Packages.ParseFloat Packages.Sincos Packages.FFT
           Packages.Marshal Packages.Render Packages.Sprintf_2f Packages.Execute
           (GET "/" [("rate", ["-Inf"])]) neg_infinity (logisticMap neg_infinity)).
  - apply Packages_Marshal_refuses.
  - reflexivity.
  - reflexivity.
  - vm_compute. reflexivity.
  - reflexivity.
  - vm_compute. reflexivity.
Defined.
